(** * NetworkTool: a shallow embedding of [NetworkTool/networktool.py]

    The tool shells out to [ping] and [arp], opens TCP sockets, reads the
    interface byte counters and prints to the terminal.  Every such effect is
    an oracle of a [World]; what the program does with the oracles' answers
    is written out below, method by method and under the source's names, in a
    small state-and-exception monad whose state carries the terminal input
    and the trace of effects performed so far.

    Text is modelled as lists of 8-bit characters read as the code points
    0..255; Python integers as [Z]; Python floats, which the tool only
    hands to [time.sleep] and to the socket and process calls, as the
    rationals [Q]. *)

From Stdlib Require Import ZArith QArith Ascii String DecimalString List Lia.
From stdpp Require Import base option list sorting strings.

Open Scope Z_scope.

(** ** Text *)

Definition str := list ascii.

Definition lit (s : string) : str := list_ascii_of_string s.

Definition code (c : ascii) : N := N_of_ascii c.

Definition in_range (lo hi : N) (c : ascii) : bool :=
  ((lo <=? code c) && (code c <=? hi))%N.

(** [str.isspace] on the code points below 256: Tab, LF, VT, FF, CR, the
    four separators 0x1c-0x1f, space, NEL (0x85) and NBSP (0xa0). *)
Definition is_space (c : ascii) : bool :=
  in_range 9 13 c || in_range 28 32 c
  || (code c =? 133)%N || (code c =? 160)%N.

(** [str.isdigit] restricted to what [\d] and [int] accept below 256. *)
Definition is_digit (c : ascii) : bool := in_range 48 57 c.

Definition is_lower_hex (c : ascii) : bool := in_range 97 102 c.
Definition is_upper_hex (c : ascii) : bool := in_range 65 70 c.

(** The class [[0-9a-fA-F]]. *)
Definition is_hex (c : ascii) : bool :=
  is_digit c || is_lower_hex c || is_upper_hex c.

Definition char_eqb (a b : ascii) : bool := (code a =? code b)%N.

Fixpoint lstrip (s : str) : str :=
  match s with
  | c :: s' => if is_space c then lstrip s' else s
  | [] => []
  end.

(** [str.strip()]. *)
Definition strip (s : str) : str := rev (lstrip (rev (lstrip s))).

(** The digits of a decimal literal, in which single underscores may
    separate digits. *)
Fixpoint int_digits (s : str) (acc : Z) (after_digit : bool) : option Z :=
  match s with
  | [] => if after_digit then Some acc else None
  | c :: s' =>
      if is_digit c
      then int_digits s' (10 * acc + (Z.of_N (code c) - 48)) true
      else if char_eqb c "_"%char
           then (if after_digit then int_digits s' acc false else None)
           else None
  end.

(** [sys.int_max_str_digits] as the interpreter starts with it: the most
    digits a decimal text may have for [int] to convert it, and an integer
    may have for [str] to print it. *)
Definition int_max_str_digits : Z := 4300.

Definition count_digits (s : str) : Z :=
  Z.of_nat (length (List.filter is_digit s)).

(** [int(s)]: surrounding white space is dropped, then an optional sign and
    the digits are read.  A text with more than [int_max_str_digits] digits
    is refused, leading zeros counted, sign and underscores not.  [None]
    stands for [ValueError]. *)
Definition py_int (s : str) : option Z :=
  if int_max_str_digits <? count_digits s then None
  else
    match strip s with
    | c :: s' =>
        if char_eqb c "-"%char then Z.opp <$> int_digits s' 0 false
        else if char_eqb c "+"%char then int_digits s' 0 false
        else int_digits (c :: s') 0 false
    | [] => None
    end.

(** The integers that [str] and the f-strings print: those of at most
    [int_max_str_digits] digits.  Every integer [py_int] returns is one. *)
Definition printable (z : Z) : bool := Z.abs z <? 10 ^ int_max_str_digits.

(** [range(a, b)]. *)
Definition py_range (a b : Z) : list Z := seqZ a (b - a).

(** [sorted] on a list of integers. *)
Definition sorted (l : list Z) : list Z := merge_sort Z.le l.

(** ** Exceptions, messages and effects *)

Inductive exn :=
| ValueError
| EOFError
| CalledProcessError
| TimeoutExpired
| FileNotFoundError
| PermissionError
| AttributeError
| OverflowError
| OtherError
| KeyboardInterrupt.

(** [except Exception] catches everything but [KeyboardInterrupt]. *)
Definition is_Exception (e : exn) : bool :=
  match e with KeyboardInterrupt => false | _ => true end.

(** One constructor per [print] call of the source. *)
Inductive message :=
| MsgCouldNotResolve (host : str)
| MsgScanning (host ip : str) (start_port end_port concurrency : Z)
| MsgPortOpen (port : Z)
| MsgScanInterrupted
| MsgNoHostEntered
| MsgInvalidPortRange
| MsgPortsMustBeIntegers
| MsgOpenPorts (host : str) (ports : list Z)
| MsgNoOpenPorts (host : str) (start_port end_port : Z)
| MsgPsutilMissing
| MsgPsutilInstallHint
| MsgArpNotFound
| MsgDiscovered (n : nat)
| MsgTableHeader
| MsgTableRule
| MsgDeviceRow (ip mac : str)
| MsgNoDevices
| MsgArpError.

Inductive event :=
| EvPrint (m : message)
| EvPrompt (p : str)
| EvExec (cmd : list str) (timeout : option Q)
| EvResolve (host : str)
| EvSubmit (ip : str) (port : Z) (timeout : Q)
| EvConnect (host : str) (port : Z) (timeout : Q)
| EvCounters
| EvSleep (d : Q).

(** How an external process ends under [subprocess.run]. *)
Inductive proc_outcome :=
| Exited (returncode : Z) (stdout : str)
| Expired
| LaunchError (e : exn).

(** The unit of work of the scan: the port it was submitted for and what
    [_scan_single_port] returned for it. *)
Record future := { fut_port : Z; fut_result : option Z }.

Record World := {
  platform_system : str;
  exec : list str -> option Q -> proc_outcome;
  which : str -> option str;
  gethostbyname : str -> option str;
  (** [socket.socket(...)], [settimeout] and [connect_ex]: the integer
      [connect_ex] returned, or [None] when any of them raised. *)
  connect_attempt : str -> Z -> Q -> option Z;
  (** [socket.create_connection]: did it connect?  A failure is any
      exception of the class [Exception]; a Ctrl-C during the attempt is
      outside this oracle. *)
  create_connection : str -> Z -> Q -> bool;
  has_psutil : bool;
  (** the n-th reading of [psutil.net_io_counters()]: bytes sent and
      received, two machine counters, or [None] when there is no interface
      to read *)
  net_io_counters : nat -> option (Z * Z);
  (** the order in which [as_completed] yields the futures *)
  as_completed : list future -> list future;
  (** Ctrl-C while waiting for the n-th completion, if any *)
  interrupt_at : option nat
}.

(** [as_completed] yields every future once, in some order. *)
Definition completes_all (w : World) : Prop :=
  forall fs, as_completed w fs ≡ₚ fs.

(** ** The monad *)

Record State := {
  stdin : list str;
  reads : nat;
  trace : list event
}.

Inductive result (A : Type) :=
| Ok (a : A)
| Raise (e : exn).
Arguments Ok {A} a.
Arguments Raise {A} e.

Definition M (A : Type) : Type := State -> result A * State.

#[global] Instance M_ret : MRet M := fun A a st => (Ok a, st).
#[global] Instance M_bind : MBind M := fun A B f m st =>
  match m st with
  | (Ok a, st') => f a st'
  | (Raise e, st') => (Raise e, st')
  end.

Definition raise {A} (e : exn) : M A := fun st => (Raise e, st).

(** [try: body except <handled>: handler]. *)
Definition try_except {A} (body : M A) (handled : exn -> bool)
    (handler : exn -> M A) : M A := fun st =>
  match body st with
  | (Ok a, st') => (Ok a, st')
  | (Raise e, st') => if handled e then handler e st' else (Raise e, st')
  end.

(** The state after the events [evs] happened. *)
Definition log (evs : list event) (st : State) : State :=
  {| stdin := stdin st; reads := reads st; trace := trace st ++ evs |}.

Definition emit (ev : event) : M unit := fun st => (Ok (), log [ev] st).

Definition print (m : message) : M unit := emit (EvPrint m).

(** [input(prompt)]: the next line of the terminal, [EOFError] at its end. *)
Definition input (prompt : str) : M str := fun st =>
  match stdin st with
  | l :: rest =>
      (Ok l, {| stdin := rest; reads := reads st;
                trace := trace st ++ [EvPrompt prompt] |})
  | [] =>
      (Raise EOFError, {| stdin := []; reads := reads st;
                          trace := trace st ++ [EvPrompt prompt] |})
  end.

Definition initial (lines : list str) : State :=
  {| stdin := lines; reads := 0%nat; trace := [] |}.

(** What a run printed, and which connection attempts it scheduled. *)
Definition messages (evs : list event) : list message :=
  omap (fun ev => match ev with EvPrint m => Some m | _ => None end) evs.

Definition printed (st : State) : list message := messages (trace st).

Definition is_probe (ev : event) : bool :=
  match ev with EvSubmit _ _ _ | EvConnect _ _ _ => true | _ => false end.

Definition probes (st : State) : list event := List.filter is_probe (trace st).

(** ** Port scan engine *)

Definition default_timeout : Q := 1 # 2.
Definition default_concurrency : Z := 100.

(** [NetworkTool._scan_single_port]: the port when [connect_ex] returned 0,
    [None] otherwise, also when anything inside the [try] raised. *)
Definition _scan_single_port (w : World) (ip : str) (port : Z) (timeout : Q)
    : option Z :=
  match connect_attempt w ip port timeout with
  | Some rc => if rc =? 0 then Some port else None
  | None => None
  end.

(** The future of one submitted port. *)
Definition future_of (w : World) (ip : str) (timeout : Q) (port : Z)
    : future :=
  {| fut_port := port; fut_result := _scan_single_port w ip port timeout |}.

(** [executor.submit(self._scan_single_port, ip, port, timeout)] for every
    port of the range. *)
Fixpoint submit_all (w : World) (ip : str) (timeout : Q) (ports : list Z)
    : M (list future) :=
  match ports with
  | [] => mret []
  | port :: rest =>
      emit (EvSubmit ip port timeout);;
      fs ← submit_all w ip timeout rest;
      mret (future_of w ip timeout port :: fs)
  end.

(** The loop [for future in as_completed(futures)]: [open_ports] is the list
    it appends to, [n] counts the completions already consumed.  It yields
    the list as the loop left it and whether [KeyboardInterrupt] ended it. *)
Fixpoint collect (w : World) (n : nat) (completed : list future)
    (open_ports : list Z) : M (list Z * bool) :=
  match completed with
  | [] => mret (open_ports, false)
  | f :: rest =>
      if decide (interrupt_at w = Some n) then mret (open_ports, true)
      else match fut_result f with
           | Some port =>
               print (MsgPortOpen port);;
               collect w (S n) rest (open_ports ++ [port])
           | None => collect w (S n) rest open_ports
           end
  end.

(** [NetworkTool.scan_ports].  [ThreadPoolExecutor(max_workers=n)] raises
    [ValueError] for [n <= 0].  The banner is taken to print: its three
    integers are [printable], as all that the menu passes are. *)
Definition scan_ports (w : World) (host : str) (start_port end_port : Z)
    (timeout : Q) (concurrency : Z) : M (list Z) :=
  emit (EvResolve host);;
  match gethostbyname w host with
  | None => print (MsgCouldNotResolve host);; mret []
  | Some ip =>
      print (MsgScanning host ip start_port end_port concurrency);;
      if concurrency <=? 0 then raise ValueError
      else
        futures ← submit_all w ip timeout (py_range start_port (end_port + 1));
        '(open_ports, interrupted) ← collect w 0 (as_completed w futures) [];
        (if interrupted : bool then print MsgScanInterrupted else mret ());;
        mret (sorted open_ports)
  end.

Definition int_of_input (s : str) : M Z :=
  match py_int s with
  | Some z => mret z
  | None => raise ValueError
  end.

Definition is_ValueError (e : exn) : bool :=
  match e with ValueError => true | _ => false end.

(** [NetworkTool._handle_scan].  The [try] block yields the range, or
    [None] when the method returned from inside it. *)
Definition _handle_scan (w : World) : M unit :=
  l ← input (lit "Host to scan: ");
  let host := strip l in
  match host with
  | [] => print MsgNoHostEntered
  | _ =>
      range ← try_except
        (s ← input (lit "Start port (e.g. 1): ");
         start ← int_of_input (strip s);
         e ← input (lit "End port (e.g. 1024): ");
         end_port ← int_of_input (strip e);
         if (start <? 0) || (end_port <? start)
         then print MsgInvalidPortRange;; mret None
         else mret (Some (start, end_port)))
        is_ValueError
        (fun _ => print MsgPortsMustBeIntegers;; mret None);
      match range with
      | None => mret ()
      | Some (start, end_port) =>
          ports ← scan_ports w host start end_port
                    default_timeout default_concurrency;
          match ports with
          | [] => print (MsgNoOpenPorts host start end_port)
          | _ => print (MsgOpenPorts host ports)
          end
      end
  end.

(** A host on which ports 7 and 9 accept connections; completions arrive
    in descending port order. *)
Definition lab_world : World := {|
  platform_system := lit "Linux";
  exec := fun _ _ => LaunchError FileNotFoundError;
  which := fun _ => None;
  gethostbyname := fun h =>
    if decide (h = lit "lab") then Some (lit "10.0.0.7") else None;
  connect_attempt := fun _ p _ =>
    if decide (p = 7 \/ p = 9) then Some 0 else Some 111;
  create_connection := fun _ _ _ => false;
  has_psutil := false;
  net_io_counters := fun _ => None;
  as_completed := reverse;
  interrupt_at := None
|}.

(** ** Connectivity prober *)

(** [str.lower] and [str.upper] on the code points below 256.  Three of
    them (0xb5, 0xdf, 0xff) have an upper case outside that range, which
    [upper_char] cannot give: it is [str.upper] on the other 253, the
    ASCII ones among them.  The tool upper-cases only text matched by
    [[0-9a-fA-F:-]]. *)
Definition lower_char (c : ascii) : ascii :=
  if in_range 65 90 c || (in_range 192 222 c && negb (code c =? 215)%N)
  then ascii_of_N (code c + 32) else c.

Definition upper_char (c : ascii) : ascii :=
  if in_range 97 122 c || (in_range 224 254 c && negb (code c =? 247)%N)
  then ascii_of_N (code c - 32) else c.

Definition lower (s : str) : str := lower_char <$> s.
Definition upper (s : str) : str := upper_char <$> s.

(** [str(n)] for a [printable] integer. *)
Definition str_of_int (n : Z) : str :=
  lit (DecimalString.NilZero.string_of_int (Z.to_int n)).

(** [subprocess.run(cmd, timeout=..., check=...)]: return code and
    standard output. *)
Definition subprocess_run (w : World) (cmd : list str) (timeout : option Q)
    (check : bool) : M (Z * str) :=
  emit (EvExec cmd timeout);;
  match exec w cmd timeout with
  | Exited rc out =>
      if check && negb (rc =? 0) then raise CalledProcessError
      else mret (rc, out)
  | Expired => raise TimeoutExpired
  | LaunchError e => raise e
  end.

Definition ping_handled (e : exn) : bool :=
  match e with
  | CalledProcessError | TimeoutExpired | FileNotFoundError => true
  | _ => false
  end.

(** The command line [cmd] that [ping_host] builds. *)
Definition ping_cmd (w : World) (host : str) (count : Z) : list str :=
  let system := lower (platform_system w) in
  if decide (system = lit "windows")
  then [lit "ping"; lit "-n"; str_of_int count; host]
  else [lit "ping"; lit "-c"; str_of_int count; host].

(** [NetworkTool.ping_host]. *)
Definition ping_host (w : World) (host : str) (timeout : Q) (count : Z)
    : M bool :=
  let cmd := ping_cmd w host count in
  try_except
    (subprocess_run w cmd (Some timeout) true;; mret true)
    ping_handled
    (fun e =>
       match e with
       | FileNotFoundError =>
           try_except
             (emit (EvConnect host 80 1%Q);;
              if create_connection w host 80 1%Q then mret true
              else raise OtherError)
             is_Exception
             (fun _ => mret false)
       | _ => mret false
       end).

(** ** Traffic sampler *)

(** [psutil.net_io_counters()]: the next reading, which is [None] on a
    machine without interfaces. *)
Definition read_counters (w : World) : M (option (Z * Z)) := fun st =>
  (Ok (net_io_counters w (reads st)),
   {| stdin := stdin st; reads := S (reads st);
      trace := trace st ++ [EvCounters] |}).

(** [time.sleep] first converts the length to a signed 64-bit count of
    nanoseconds: [sleep_limit] is 2^63 ns in seconds.  The conversion rounds
    a float product, so on the last float before the limit the model is not
    exact; the properties stay a second away from it. *)
Definition sleep_limit : Q := 9223372036854775808 # 1000000000.

(** [time.sleep]: [OverflowError] for a length that does not fit the
    nanosecond count, of either sign; then [ValueError] for a negative
    one. *)
Definition sleep (d : Q) : M unit :=
  if Qlt_le_dec d sleep_limit
  then if Qlt_le_dec (- sleep_limit) d
       then if Qlt_le_dec d 0 then raise ValueError else emit (EvSleep d)
       else raise OverflowError
  else raise OverflowError.

(** [NetworkTool.get_network_traffic].  The fields of a reading are first
    used in the two subtractions: a reading that is [None] raises
    [AttributeError] there, after the sleep and the second reading. *)
Definition get_network_traffic (w : World) (duration : Q) : M (Z * Z) :=
  if negb (has_psutil w)
  then print MsgPsutilMissing;; print MsgPsutilInstallHint;; mret (0, 0)
  else
    before ← read_counters w;
    sleep duration;;
    after ← read_counters w;
    match after, before with
    | Some after, Some before =>
        let sent := after.1 - before.1 in
        let recv := after.2 - before.2 in
        mret (sent, recv)
    | _, _ => raise AttributeError
    end.

(** ** Regular expressions

    [re] is a backtracking matcher: alternatives are tried in priority
    order and the first complete match wins.  A pattern is embedded as a
    function that consumes a prefix of the text and hands the rest, with
    the groups captured so far, to its continuation; a continuation that
    fails makes the pattern try its next alternative. *)

Inductive gname := Gip | Gmac.

Record groups := { grp_ip : option str; grp_mac : option str }.

Definition no_groups : groups := {| grp_ip := None; grp_mac := None |}.

Definition set_group (n : gname) (v : str) (g : groups) : groups :=
  match n with
  | Gip => {| grp_ip := Some v; grp_mac := grp_mac g |}
  | Gmac => {| grp_ip := grp_ip g; grp_mac := Some v |}
  end.

Definition cont := str -> groups -> option groups.
Definition matcher := str -> groups -> cont -> option groups.

(** One character of a class. *)
Definition cls (p : ascii -> bool) : matcher := fun s g k =>
  match s with
  | c :: s' => if p c then k s' g else None
  | [] => None
  end.

Definition chr (c : ascii) : matcher := cls (char_eqb c).

Definition seq (m1 m2 : matcher) : matcher := fun s g k =>
  m1 s g (fun s' g' => m2 s' g' k).

Definition alt (m1 m2 : matcher) : matcher := fun s g k =>
  match m1 s g k with
  | Some r => Some r
  | None => m2 s g k
  end.

(** Greedy [p*] over a class: the longest run first, then shorter ones. *)
Fixpoint star (p : ascii -> bool) (s : str) (g : groups) (k : cont)
    : option groups :=
  match s with
  | c :: s' =>
      if p c
      then match star p s' g k with
           | Some r => Some r
           | None => k s g
           end
      else k s g
  | [] => k [] g
  end.

(** [p+]. *)
Definition plus (p : ascii -> bool) : matcher := seq (cls p) (star p).

(** Greedy [p{1,2}]. *)
Definition one_or_two (p : ascii -> bool) : matcher :=
  alt (seq (cls p) (cls p)) (cls p).

(** [m{n}]. *)
Fixpoint times (n : nat) (m : matcher) : matcher :=
  match n with
  | O => fun s g k => k s g
  | S n' => seq m (times n' m)
  end.

(** [(?P<n>m)]: the group is the text [m] consumed. *)
Definition group (n : gname) (m : matcher) : matcher := fun s g k =>
  m s g (fun s' g' =>
    k s' (set_group n (take (length s - length s') s) g')).

(** [pattern.match(line)]: anchored at the start, free at the end. *)
Definition re_match (m : matcher) (line : str) : option groups :=
  m line no_groups (fun _ g => Some g).

Infix "⋅" := seq (at level 41, right associativity).

(** [.], [[\d\.]], [\s], [[:-]], [-] *)
Definition any_char (c : ascii) : bool := negb (code c =? 10)%N.
Definition ip_char (c : ascii) : bool := is_digit c || char_eqb "." c.
Definition colon_or_hyphen (c : ascii) : bool :=
  char_eqb ":" c || char_eqb "-" c.
Definition hyphen (c : ascii) : bool := char_eqb "-" c.

(** [([0-9a-fA-F]{1,2}<sep>){5}[0-9a-fA-F]{1,2}] *)
Definition mac_pattern (sep : ascii -> bool) : matcher :=
  times 5 (one_or_two is_hex ⋅ cls sep) ⋅ one_or_two is_hex.

(** [r".*\((?P<ip>[\d\.]+)\)\s+at\s+(?P<mac>([0-9a-fA-F]{1,2}[:-]){5}[0-9a-fA-F]{1,2}).*"] *)
Definition linux_mac_pattern : matcher :=
  star any_char ⋅ chr "(" ⋅ group Gip (plus ip_char) ⋅ chr ")" ⋅
  plus is_space ⋅ chr "a" ⋅ chr "t" ⋅ plus is_space ⋅
  group Gmac (mac_pattern colon_or_hyphen) ⋅ star any_char.

(** [r"\s*(?P<ip>[\d\.]+)\s+(?P<mac>([0-9a-fA-F]{1,2}-){5}[0-9a-fA-F]{1,2}).*"] *)
Definition windows_pattern : matcher :=
  star is_space ⋅ group Gip (plus ip_char) ⋅ plus is_space ⋅
  group Gmac (mac_pattern hyphen) ⋅ star any_char.

(** ** Neighbor discovery *)

(** The line boundaries of [str.splitlines] below 256. *)
Definition is_linebreak (c : ascii) : bool :=
  in_range 10 13 c || in_range 28 30 c || (code c =? 133)%N.

(** [cur] is the line being read; [after_cr] says that the previous
    character was a carriage return, whose line feed belongs to it. *)
Fixpoint splitlines_from (s : str) (cur : str) (after_cr : bool)
    : list str :=
  match s with
  | [] => match cur with [] => [] | _ => [cur] end
  | c :: s' =>
      if after_cr && char_eqb c "010"
      then splitlines_from s' [] false
      else if is_linebreak c
           then cur :: splitlines_from s' [] (char_eqb c "013")
           else splitlines_from s' (cur ++ [c]) false
  end.

(** [str.splitlines()]. *)
Definition splitlines (s : str) : list str := splitlines_from s [] false.

(** [s.replace(old, new)] for one-character [old] and [new]. *)
Definition replace (old new : ascii) (s : str) : str :=
  (fun c => if char_eqb c old then new else c) <$> s.

(** [match.group(name)]; the patterns of the tool set both groups in
    every match (see [match_line_groups]). *)
Definition match_group (n : gname) (g : groups) : str :=
  default [] (match n with Gip => grp_ip g | Gmac => grp_mac g end).

(** [match.group("mac").replace("-", ":").upper()] *)
Definition normalize_mac (mac : str) : str := upper (replace "-" ":" mac).

Record device := { dev_ip : str; dev_mac : str }.

(** [linux_mac_pattern.match(line) or windows_pattern.match(line)] *)
Definition match_line (line : str) : option groups :=
  match re_match linux_mac_pattern line with
  | Some g => Some g
  | None => re_match windows_pattern line
  end.

(** One turn of the loop over the lines: [devices.append(...)] on a match. *)
Definition scan_line (devices : list device) (line : str) : list device :=
  match match_line line with
  | Some g =>
      devices ++ [{| dev_ip := match_group Gip g;
                     dev_mac := normalize_mac (match_group Gmac g) |}]
  | None => devices
  end.

(** The device list the loop builds from the lines of the output. *)
Definition arp_devices (lines : list str) : list device :=
  fold_left scan_line lines [].

Fixpoint print_rows (devices : list device) : M unit :=
  match devices with
  | [] => mret ()
  | d :: rest => print (MsgDeviceRow (dev_ip d) (dev_mac d));; print_rows rest
  end.

(** [NetworkTool.discover_devices]. *)
Definition discover_devices (w : World) : M unit :=
  match which w (lit "arp") with
  | None => print MsgArpNotFound
  | Some arp_cmd =>
      try_except
        ('(_, output) ← subprocess_run w [arp_cmd; lit "-a"] None false;
         let devices := arp_devices (splitlines output) in
         match devices with
         | [] => print MsgNoDevices
         | _ =>
             print (MsgDiscovered (length devices));;
             print MsgTableHeader;;
             print MsgTableRule;;
             print_rows devices
         end)
        is_Exception
        (fun _ => print MsgArpError)
  end.

(** The record a line yields, if any. *)
Definition line_device (line : str) : option device :=
  match match_line line with
  | Some g => Some {| dev_ip := match_group Gip g;
                      dev_mac := normalize_mac (match_group Gmac g) |}
  | None => None
  end.

(** What the spec asks of the device list: one record for every line
    that matches a shape, in the order of the lines, nothing merged and
    nothing moved. *)
Definition records_in_line_order (lines : list str) : list device :=
  omap line_device lines.

(** What [discover_devices] prints for a device list. *)
Definition report (devices : list device) : list message :=
  match devices with
  | [] => [MsgNoDevices]
  | _ => MsgDiscovered (length devices) :: MsgTableHeader :: MsgTableRule
         :: ((fun d => MsgDeviceRow (dev_ip d) (dev_mac d)) <$> devices)
  end.

(** [s.split(sep)] for a one-character separator. *)
Fixpoint split_on (sep : ascii) (s : str) : list str :=
  match s with
  | [] => [[]]
  | c :: s' =>
      if char_eqb c sep then [] :: split_on sep s'
      else match split_on sep s' with
           | p :: ps => (c :: p) :: ps
           | [] => [[c]]
           end
  end.

Definition is_upper_hex_digit (c : ascii) : bool :=
  is_digit c || is_upper_hex c.

(** Six colon-separated groups of [lo] to [hi] uppercase hexadecimal
    digits each. *)
Definition mac_groups (lo hi : nat) (mac : str) : bool :=
  (length (split_on ":" mac) =? 6)%nat
  && forallb (fun p => (lo <=? length p)%nat && (length p <=? hi)%nat
                       && forallb is_upper_hex_digit p)
       (split_on ":" mac).

(** The canonical form of the spec: uppercase hexadecimal pairs joined
    by colons. *)
Definition canonical_mac (mac : str) : bool := mac_groups 2 2 mac.

(** The hardware address a MAC text denotes: the values of its groups,
    whatever the delimiter and the case of the digits. *)
Definition hex_val (c : ascii) : N :=
  if is_digit c then (code c - 48)%N
  else if is_lower_hex c then (code c - 87)%N
  else if is_upper_hex c then (code c - 55)%N
  else 0%N.

Definition group_val (d : str) : N :=
  fold_left (fun acc c => (16 * acc + hex_val c)%N) d 0%N.

Definition mac_value (mac : str) : list N :=
  group_val <$> split_on ":" (replace "-" ":" mac).

(** [sep.join(parts)] for a one-character separator. *)
Fixpoint join (sep : ascii) (parts : list str) : str :=
  match parts with
  | [] => []
  | [p] => p
  | p :: ps => p ++ sep :: join sep ps
  end.


(** A machine without a [ping] binary whose interface counters were reset
    between two readings: 1000 bytes sent and 500 received, then 200 and
    700. *)
Definition bare_world : World := {|
  platform_system := lit "Linux";
  exec := fun _ _ => LaunchError FileNotFoundError;
  which := fun _ => None;
  gethostbyname := fun _ => None;
  connect_attempt := fun _ _ _ => None;
  create_connection := fun _ _ _ => false;
  has_psutil := true;
  net_io_counters := fun n =>
    match n with O => Some (1000, 500) | _ => Some (200, 700) end;
  as_completed := fun fs => fs;
  interrupt_at := None
|}.

(** A machine whose [arp -a] lists two neighbours out of numeric order,
    the first of them again at the end, in both shapes. *)
Definition arp_table : str :=
  join "010"
    [lit "Interface: 10.0.0.5 --- 0x4";
     lit "  10.0.0.2   aa-bb-cc-dd-ee-ff   dynamic";
     lit "? (10.0.0.1) at 0:1a:2b:3c:4d:5e [ether] on eth0";
     lit "? (10.0.0.9) at <incomplete> on eth0";
     lit "? (10.0.0.2) at aa:bb:cc:dd:ee:ff [ether] on eth0"].

Definition arp_table_world : World := {|
  platform_system := lit "Linux";
  exec := fun _ _ => Exited 0 arp_table;
  which := fun _ => Some (lit "/usr/sbin/arp");
  gethostbyname := fun _ => None;
  connect_attempt := fun _ _ _ => None;
  create_connection := fun _ _ _ => false;
  has_psutil := false;
  net_io_counters := fun _ => None;
  as_completed := fun fs => fs;
  interrupt_at := None
|}.

(** ** Vocabulary of the properties *)

(** [accepts m L]: whenever [m] matches, it consumed a prefix in [L],
    left the groups alone and its continuation produced the result. *)
Definition accepts (m : matcher) (L : str -> Prop) : Prop :=
  forall s g k r, m s g k = Some r ->
    exists pre s', s = pre ++ s' /\ L pre /\ k s' g = Some r.

(** Between [lo] and two characters of a class. *)
Definition chars_of (lo : nat) (p : ascii -> bool) (d : str) : Prop :=
  (lo <= length d <= 2)%nat /\ forallb p d = true.

(** The text of a MAC as the patterns accept it: five groups of [lo] to
    two hex digits, each followed by a separator, and a sixth group. *)
Definition mac_text (lo : nat) (sep : ascii -> bool) (mac : str) : Prop :=
  exists parts last,
    length parts = 5%nat
    /\ Forall (fun part => exists d c,
                 part = d ++ [c] /\ chars_of lo is_hex d /\ sep c = true)
         parts
    /\ chars_of lo is_hex last
    /\ mac = concat parts ++ last.

(** What normalization does to one character. *)
Definition norm_char (c : ascii) : ascii :=
  upper_char (if char_eqb c "-" then ":"%char else c).

(** A group of [lo] to [hi] uppercase hex digits. *)
Definition upper_group (lo hi : nat) (d : str) : Prop :=
  (lo <= length d <= hi)%nat /\ forallb is_upper_hex_digit d = true.

(** A character map that sends the separators to the colon and keeps the
    hex digits away from it. *)
Definition keeps_groups (f : ascii -> ascii) : Prop :=
  (forall c, colon_or_hyphen c = true -> f c = ":"%char)
  /\ (forall c, is_hex c = true -> char_eqb (f c) ":" = false).

(** What [replace("-", ":")] does to one character. *)
Definition hyphen_to_colon (c : ascii) : ascii :=
  if char_eqb c "-" then ":"%char else c.

(** The uppercase digit of a value below 16. *)
Definition digit_of (v : N) : ascii :=
  if (v <? 10)%N then ascii_of_N (v + 48) else ascii_of_N (v + 55).



(** A machine on which [arp] is installed but may not be run. *)
Definition arp_denied_world : World := {|
  platform_system := lit "Linux";
  exec := fun _ _ => LaunchError PermissionError;
  which := fun _ => Some (lit "/usr/sbin/arp");
  gethostbyname := fun _ => None;
  connect_attempt := fun _ _ _ => None;
  create_connection := fun _ _ _ => false;
  has_psutil := false;
  net_io_counters := fun _ => None;
  as_completed := fun fs => fs;
  interrupt_at := None
|}.

(** One or two hexadecimal digits. *)
Definition hex_group (d : str) : bool :=
  (1 <=? length d)%nat && (length d <=? 2)%nat && forallb is_hex d.

(** The text of a MAC made of the groups of [parts], each followed by
    its separator, and of the group [last]. *)
Definition mac_of (parts : list (str * ascii)) (last : str) : str :=
  concat ((fun part => part.1 ++ [part.2]) <$> parts) ++ last.

(** The text [s] does not go on with a character of the class. *)
Definition stops (p : ascii -> bool) (s : str) : bool :=
  match s with
  | [] => true
  | c :: _ => negb (p c)
  end.

(** The text contains no opening parenthesis. *)
Definition no_paren (s : str) : bool :=
  forallb (fun c => negb (char_eqb "(" c)) s.

(** A line of the Windows shape: blanks, a run of digits and dots, blanks,
    six groups of one or two hex digits joined by hyphens, then a rest
    without an opening parenthesis.  When the last group has one digit the
    rest must not go on with a hex digit, which would be its second. *)
Definition windows_line (sp0 ip sp1 : str) (parts : list (str * ascii))
    (last rest : str) : str :=
  sp0 ++ ip ++ sp1 ++ mac_of parts last ++ rest.

Definition windows_shape (sp0 ip sp1 : str) (parts : list (str * ascii))
    (last rest : str) : bool :=
  forallb is_space sp0
  && (1 <=? length ip)%nat && forallb ip_char ip
  && (1 <=? length sp1)%nat && forallb is_space sp1
  && (length parts =? 5)%nat
  && forallb (fun part => hex_group part.1 && hyphen part.2) parts
  && hex_group last
  && ((length last =? 2)%nat || stops is_hex rest)
  && no_paren rest.

(** A line of the Linux/macOS shape: any text, an address in parentheses,
    [at] between blanks, six groups of one or two hex digits joined by
    colons or hyphens, then a rest as above. *)
Definition linux_line (junk ip sp1 sp2 : str) (parts : list (str * ascii))
    (last rest : str) : str :=
  junk ++ "("%char :: ip ++ ")"%char :: sp1
  ++ "a"%char :: "t"%char :: sp2 ++ mac_of parts last ++ rest.

Definition linux_shape (junk ip sp1 sp2 : str) (parts : list (str * ascii))
    (last rest : str) : bool :=
  forallb any_char junk
  && (1 <=? length ip)%nat && forallb ip_char ip
  && (1 <=? length sp1)%nat && forallb is_space sp1
  && (1 <=? length sp2)%nat && forallb is_space sp2
  && (length parts =? 5)%nat
  && forallb (fun part => hex_group part.1 && colon_or_hyphen part.2) parts
  && hex_group last
  && ((length last =? 2)%nat || stops is_hex rest)
  && no_paren rest.

(** Splitting at the characters of a class. *)
Fixpoint split_by (q : ascii -> bool) (s : str) : list str :=
  match s with
  | [] => [[]]
  | c :: s' =>
      if q c then [] :: split_by q s'
      else match split_by q s' with
           | p :: ps => (c :: p) :: ps
           | [] => [[c]]
           end
  end.

(** ** The menu and its other handlers

    The handlers of the menu print lines of their own.  Their effects are
    the events above and these lines, in one trace; a computation of the
    components is run inside a handler by [lift], which appends what it
    did to that trace. *)

(** The two alerts the tool raises. *)
Inductive alert_text :=
| HostDidNotRespond (host : str)
| HighTraffic.

(** One constructor per [print] call of the handlers and of the loop. *)
Inductive xmessage :=
| XAlert (a : alert_text)
| XInvalidNumber
| XPinging (host : str) (count : Z)
| XStatus (host : str) (up : bool)
| XPsutilNotInstalled
| XInvalidDuration
| XBytes (sent recv : Z)
| XMenuTitle
| XMenuItem (n : Z)
| XBye
| XInvalidChoice
| XInterruptedExit.

Inductive xevent :=
| Base (ev : event)
| XPrint (m : xmessage).

Record XState := {
  xstdin : list str;
  xreads : nat;
  xtrace : list xevent
}.

Definition MX (A : Type) : Type := XState -> result A * XState.

#[global] Instance MX_ret : MRet MX := fun A a xst => (Ok a, xst).
#[global] Instance MX_bind : MBind MX := fun A B f m xst =>
  match m xst with
  | (Ok a, xst') => f a xst'
  | (Raise e, xst') => (Raise e, xst')
  end.

Definition xraise {A} (e : exn) : MX A := fun xst => (Raise e, xst).

Definition xtry_except {A} (body : MX A) (handled : exn -> bool)
    (handler : exn -> MX A) : MX A := fun xst =>
  match body xst with
  | (Ok a, xst') => (Ok a, xst')
  | (Raise e, xst') => if handled e then handler e xst' else (Raise e, xst')
  end.

(** A computation of the components, run where the handler stands. *)
Definition lift {A} (m : M A) : MX A := fun xst =>
  let '(r, st') :=
    m {| stdin := xstdin xst; reads := xreads xst; trace := [] |} in
  (r, {| xstdin := stdin st'; xreads := reads st';
         xtrace := xtrace xst ++ (Base <$> trace st') |}).

Definition xprint (m : xmessage) : MX unit := fun xst =>
  (Ok (), {| xstdin := xstdin xst; xreads := xreads xst;
             xtrace := xtrace xst ++ [XPrint m] |}).

Definition xinitial (lines : list str) : XState :=
  {| xstdin := lines; xreads := 0%nat; xtrace := [] |}.

(** [NetworkTool.alert]. *)
Definition alert (a : alert_text) : MX unit := xprint (XAlert a).

Definition default_ping_timeout : Q := 3.

(** [NetworkTool._handle_ping]. *)
Definition _handle_ping (w : World) : MX unit :=
  l ← lift (input (lit "Host or IP to ping: "));
  let host := strip l in
  match host with
  | [] => lift (print MsgNoHostEntered)
  | _ =>
      count ← xtry_except
        (c ← lift (input (lit "Number of pings to send (default 1): "));
         lift (int_of_input (match strip c with [] => lit "1" | s => s end)))
        is_ValueError
        (fun _ => xprint XInvalidNumber;; mret 1);
      xprint (XPinging host count);;
      up ← lift (ping_host w host default_ping_timeout count);
      xprint (XStatus host up);;
      if up : bool then mret () else alert (HostDidNotRespond host)
  end.

(** A Python float: the handler of the traffic menu parses one. *)
Inductive pyfloat :=
| Finite (q : Q)
| Infinite
| NaN.

(** [time.sleep] on a float that is not finite: [ValueError] for NaN,
    [OverflowError] for an infinity. *)
Definition sleep_float (d : pyfloat) : M unit :=
  match d with
  | Finite q => sleep q
  | Infinite => raise OverflowError
  | NaN => raise ValueError
  end.

(** [NetworkTool.get_network_traffic] for any float: on the finite ones
    it is the sampler above. *)
Definition get_network_traffic_float (w : World) (d : pyfloat) : M (Z * Z) :=
  match d with
  | Finite q => get_network_traffic w q
  | _ =>
      if negb (has_psutil w)
      then print MsgPsutilMissing;; print MsgPsutilInstallHint;; mret (0, 0)
      else
        before ← read_counters w;
        sleep_float d;;
        after ← read_counters w;
        match after, before with
        | Some after, Some before =>
            let sent := after.1 - before.1 in
            let recv := after.2 - before.2 in
            mret (sent, recv)
        | _, _ => raise AttributeError
        end
  end.

Definition threshold : Z := 1000000.

(** [NetworkTool._handle_traffic]; [float] is Python's parser of floats,
    [None] standing for its [ValueError]. *)
Definition _handle_traffic (float : str -> option pyfloat) (w : World)
    : MX unit :=
  go_on ←
    (if negb (has_psutil w)
     then xprint XPsutilNotInstalled;;
          l ← lift (input (lit "Continue without measuring? (y/n): "));
          mret (bool_decide (lower (strip l) = lit "y"))
     else mret true);
  if go_on : bool
  then
    duration ← xtry_except
      (l ← lift (input (lit "Duration in seconds to measure (default 1): "));
       match strip l with
       | [] => mret (Finite 1)
       | d => match float d with
              | Some x => mret x
              | None => xraise ValueError
              end
       end)
      is_ValueError
      (fun _ => xprint XInvalidDuration;; mret (Finite 1));
    '(sent, recv) ← lift (get_network_traffic_float w duration);
    xprint (XBytes sent recv);;
    if (threshold <? sent) || (threshold <? recv)
    then alert HighTraffic
    else mret ()
  else mret ().

(** One turn of the menu loop: [true] to go round again, [false] for
    the [break] of choice 5. *)
Definition menu_turn (float : str -> option pyfloat) (w : World) : MX bool :=
  xprint XMenuTitle;;
  xprint (XMenuItem 1);; xprint (XMenuItem 2);; xprint (XMenuItem 3);;
  xprint (XMenuItem 4);; xprint (XMenuItem 5);;
  l ← lift (input (lit "Choice (1-5): "));
  let choice := strip l in
  if decide (choice = lit "1") then _handle_ping w;; mret true
  else if decide (choice = lit "2") then lift (_handle_scan w);; mret true
  else if decide (choice = lit "3") then _handle_traffic float w;; mret true
  else if decide (choice = lit "4") then lift (discover_devices w);; mret true
  else if decide (choice = lit "5") then xprint XBye;; mret false
  else xprint XInvalidChoice;; mret true.

(** The [while True] loop, for at most [fuel] turns: [None] when the
    turns ran out. *)
Fixpoint menu_loop (fuel : nat) (float : str -> option pyfloat) (w : World)
    (xst : XState) : option (result unit * XState) :=
  match fuel with
  | O => None
  | S fuel' =>
      match menu_turn float w xst with
      | (Ok true, xst') => menu_loop fuel' float w xst'
      | (Ok false, xst') => Some (Ok (), xst')
      | (Raise e, xst') => Some (Raise e, xst')
      end
  end.

(** How a session ends: the method returns, [sys.exit] is called, or an
    exception leaves the method. *)
Inductive ending :=
| Returned
| SystemExit (code : Z)
| Uncaught (e : exn).

(** [NetworkTool.run]. *)
Definition run (fuel : nat) (float : str -> option pyfloat) (w : World)
    (xst : XState) : option (ending * XState) :=
  match menu_loop fuel float w xst with
  | None => None
  | Some (Ok _, xst') => Some (Returned, xst')
  | Some (Raise KeyboardInterrupt, xst') =>
      Some (SystemExit 0, (xprint XInterruptedExit xst').2)
  | Some (Raise e, xst') => Some (Uncaught e, xst')
  end.

(** A computation never gives the terminal a line back: the input left
    after it is no longer than before. *)
Definition input_kept {A} (m : M A) : Prop :=
  forall st, (length (stdin (m st).2) <= length (stdin st))%nat.

Definition xinput_kept {A} (m : MX A) : Prop :=
  forall xst, (length (xstdin (m xst).2) <= length (xstdin xst))%nat.

(** The count [_handle_ping] pings with, for the line typed at its
    second prompt: 1 for a blank line and for one that is no integer. *)
Definition ping_count (line : str) : Z :=
  match strip line with
  | [] => 1
  | s => default 1 (py_int s)
  end.

(** Was the line typed for the count turned down with a notice? *)
Definition count_refused (line : str) : bool :=
  match strip line with
  | [] => false
  | s => match py_int s with Some _ => false | None => true end
  end.

(** The duration [_handle_traffic] measures for, for the line typed at
    its prompt: one second for a blank line and for one that is no
    float. *)
Definition typed_duration (float : str -> option pyfloat) (line : str)
    : pyfloat :=
  match strip line with
  | [] => Finite 1
  | d => default (Finite 1) (float d)
  end.

(** Was the line typed for the duration turned down with a notice? *)
Definition duration_refused (float : str -> option pyfloat) (line : str)
    : bool :=
  match strip line with
  | [] => false
  | d => match float d with Some _ => false | None => true end
  end.

(** The six lines of the menu. *)
Definition menu_lines : list xevent :=
  [XPrint XMenuTitle; XPrint (XMenuItem 1); XPrint (XMenuItem 2);
   XPrint (XMenuItem 3); XPrint (XMenuItem 4); XPrint (XMenuItem 5)].

(** A float parser for the examples: it knows ["2"] and ["nan"]. *)
Definition toy_float (s : str) : option pyfloat :=
  if decide (s = lit "2") then Some (Finite 2)
  else if decide (s = lit "nan") then Some NaN
  else None.

(** A machine with psutil whose counters moved by 2,000,000 bytes sent
    and 10 received between two readings. *)
Definition busy_world : World := {|
  platform_system := lit "Linux";
  exec := fun _ _ => LaunchError KeyboardInterrupt;
  which := fun _ => Some (lit "/usr/sbin/arp");
  gethostbyname := fun _ => None;
  connect_attempt := fun _ _ _ => None;
  create_connection := fun _ _ _ => false;
  has_psutil := true;
  net_io_counters := fun n =>
    match n with O => Some (5000, 70) | _ => Some (2005000, 80) end;
  as_completed := fun fs => fs;
  interrupt_at := None
|}.

(** An event other than a name resolution. *)
Definition not_resolve (ev : event) : Prop :=
  match ev with EvResolve _ => False | _ => True end.

(** * Properties *)

(** ** The monad and its trace *)

Lemma log_nil st : log [] st = st.
Proof. destruct st; unfold log; simpl. by rewrite app_nil_r. Qed.

Lemma log_log evs1 evs2 st : log evs2 (log evs1 st) = log (evs1 ++ evs2) st.
Proof. unfold log; simpl. by rewrite app_assoc. Qed.

Lemma trace_log evs st : trace (log evs st) = trace st ++ evs.
Proof. reflexivity. Qed.

Lemma printed_log evs st :
  printed (log evs st) = printed st ++ messages evs.
Proof. unfold printed, messages; simpl. by rewrite omap_app. Qed.

Lemma probes_log evs st :
  probes (log evs st) = probes st ++ List.filter is_probe evs.
Proof. unfold probes; simpl. by rewrite List.filter_app. Qed.

Lemma bind_run {A B} (m : M A) (f : A -> M B) st :
  (m ≫= f) st = match m st with
                | (Ok a, st') => f a st'
                | (Raise e, st') => (Raise e, st')
                end.
Proof. reflexivity. Qed.

Lemma emit_run ev st : emit ev st = (Ok (), log [ev] st).
Proof. reflexivity. Qed.

Lemma ret_run {A} (a : A) st : (mret a : M A) st = (Ok a, st).
Proof. reflexivity. Qed.

(** ** Integers read from the terminal *)

Lemma count_digits_cons c s :
  count_digits (c :: s) = (if is_digit c then 1 else 0) + count_digits s.
Proof.
  unfold count_digits. cbn [List.filter].
  destruct (is_digit c); cbn [length]; lia.
Qed.

Lemma count_digits_nonneg s : 0 <= count_digits s.
Proof. unfold count_digits. lia. Qed.

Lemma digit_value c : is_digit c = true -> 0 <= Z.of_N (code c) - 48 <= 9.
Proof.
  unfold is_digit, in_range. intros [H1 H2]%andb_true_iff.
  apply N.leb_le in H1, H2. lia.
Qed.

Lemma int_digits_bound s : forall acc b z,
  0 <= acc ->
  int_digits s acc b = Some z ->
  0 <= z /\ z + 1 <= (acc + 1) * 10 ^ count_digits s.
Proof.
  induction s as [|c s IH]; intros acc b z Hacc; cbn [int_digits].
  - destruct b; [|done]. intros [= <-]. change (count_digits []) with 0. lia.
  - rewrite count_digits_cons. pose proof (count_digits_nonneg s) as Hn.
    destruct (is_digit c) eqn:Hc.
    + intros H. pose proof (digit_value c Hc) as Hd.
      apply IH in H as [H0 H]; [|lia]. split; [done|].
      rewrite Z.pow_add_r, Z.pow_1_r by lia.
      assert (0 < 10 ^ count_digits s) by (apply Z.pow_pos_nonneg; lia).
      nia.
    + destruct (char_eqb c "_"); [|done]. destruct b; [|done].
      rewrite Z.add_0_l. by apply IH.
Qed.

Lemma count_digits_lstrip s : count_digits (lstrip s) <= count_digits s.
Proof.
  induction s as [|c s IH]; [done|]. cbn [lstrip].
  destruct (is_space c); [|done].
  rewrite count_digits_cons. destruct (is_digit c); lia.
Qed.

Lemma count_digits_rev s : count_digits (rev s) = count_digits s.
Proof.
  unfold count_digits. by rewrite List.filter_rev, List.length_rev.
Qed.

Lemma count_digits_strip s : count_digits (strip s) <= count_digits s.
Proof.
  unfold strip. rewrite count_digits_rev.
  etransitivity; [apply count_digits_lstrip|].
  rewrite count_digits_rev. apply count_digits_lstrip.
Qed.

(** The limit counts leading zeros: 4300 digits are read, 4301 are not. *)
Lemma py_int_digit_limit :
  py_int (replicate 4299 "0"%char ++ lit "7") = Some 7
  /\ py_int (replicate 4300 "0"%char ++ lit "7") = None.
Proof. split; vm_compute; reflexivity. Qed.

(** Every integer that [int] reads from a line prints. *)
Lemma py_int_printable s z : py_int s = Some z -> printable z = true.
Proof.
  unfold py_int, printable.
  destruct (Z.ltb_spec int_max_str_digits (count_digits s)) as [|Hmax]; [done|].
  pose proof (count_digits_strip s) as Hstrip.
  destruct (strip s) as [|c s'] eqn:Hs; [done|].
  rewrite count_digits_cons in Hstrip.
  pose proof (count_digits_nonneg s') as Hn.
  assert (Hpow : forall n, 0 <= n -> n <= count_digits s ->
                 10 ^ n <= 10 ^ int_max_str_digits).
  { intros n Hn0 Hle. apply Z.pow_le_mono_r; lia. }
  intros H. apply Z.ltb_lt.
  destruct (char_eqb c "-"); [|destruct (char_eqb c "+")].
  - destruct (int_digits s' 0 false) as [z0|] eqn:Hz; [|done].
    injection H as <-. apply int_digits_bound in Hz as [H0 Hz]; [|lia].
    specialize (Hpow (count_digits s')).
    destruct (is_digit c); lia.
  - apply int_digits_bound in H as [H0 Hz]; [|lia].
    specialize (Hpow (count_digits s')).
    destruct (is_digit c); lia.
  - apply int_digits_bound in H as [H0 Hz]; [|lia].
    rewrite count_digits_cons in Hz.
    specialize (Hpow ((if is_digit c then 1 else 0) + count_digits s')).
    destruct (is_digit c); lia.
Qed.

(** ** Port scan engine *)

Lemma submit_all_run w ip t ports st :
  submit_all w ip t ports st =
  (Ok (future_of w ip t <$> ports),
   log ((fun p => EvSubmit ip p t) <$> ports) st).
Proof.
  revert st. induction ports as [|p ports IH]; intros st; simpl.
  - by rewrite ret_run, log_nil.
  - rewrite bind_run, emit_run, bind_run, IH, ret_run, log_log. done.
Qed.

(** The loop consumes a prefix of the completions: all of them unless
    it is interrupted. *)
Lemma collect_run w fs : forall n acc st,
  exists k b,
    let found := omap fut_result (take k fs) in
    collect w n fs acc st =
      (Ok (acc ++ found, b), log (EvPrint ∘ MsgPortOpen <$> found) st)
    /\ (interrupt_at w = None -> k = length fs /\ b = false)
    /\ (b = false -> k = length fs).
Proof.
  induction fs as [|f fs IH]; intros n acc st; simpl.
  - exists 0%nat, false. simpl. rewrite ret_run, app_nil_r, log_nil. done.
  - destruct (decide (interrupt_at w = Some n)) as [Hi|Hi].
    + exists 0%nat, true. simpl. rewrite ret_run, app_nil_r, log_nil.
      split; [done|]. split; [|done]. intros Hn. congruence.
    + destruct (fut_result f) as [port|] eqn:Hf.
      * destruct (IH (S n) (acc ++ [port]) (log [EvPrint (MsgPortOpen port)] st))
          as (k & b & Hrun & Hall & Hb).
        exists (S k), b. simpl. rewrite Hf. simpl.
        unfold print. rewrite bind_run, emit_run, Hrun, log_log, <- app_assoc.
        split; [done|]. split; [intros Hn; destruct (Hall Hn); auto|].
        intros Hb'. by rewrite (Hb Hb').
      * destruct (IH (S n) acc st) as (k & b & Hrun & Hall & Hb).
        exists (S k), b. simpl. rewrite Hf. simpl.
        split; [done|]. split; [intros Hn; destruct (Hall Hn); auto|].
        intros Hb'. by rewrite (Hb Hb').
Qed.

(** What a scan of a resolved host does, for a legal pool size. *)
Lemma scan_ports_resolved w host ip s e t c st :
  gethostbyname w host = Some ip -> 1 <= c ->
  exists k b,
    let futures := as_completed w (future_of w ip t <$> py_range s (e + 1)) in
    let found := omap fut_result (take k futures) in
    scan_ports w host s e t c st =
      (Ok (sorted found),
       log ([EvResolve host; EvPrint (MsgScanning host ip s e c)]
            ++ ((fun p => EvSubmit ip p t) <$> py_range s (e + 1))
            ++ (EvPrint ∘ MsgPortOpen <$> found)
            ++ (if b : bool then [EvPrint MsgScanInterrupted] else [])) st)
    /\ (interrupt_at w = None -> k = length futures).
Proof.
  intros Hip Hc. unfold scan_ports.
  set (fs := as_completed w (future_of w ip t <$> py_range s (e + 1))).
  destruct (collect_run w fs 0 []
              (log ((fun p => EvSubmit ip p t) <$> py_range s (e + 1))
                 (log [EvPrint (MsgScanning host ip s e c)]
                    (log [EvResolve host] st))))
    as (k & b & Hrun & Hall & _).
  exists k, b. simpl. split; [|intros Hn; by destruct (Hall Hn)].
  rewrite bind_run, emit_run, Hip. unfold print.
  rewrite bind_run, emit_run.
  destruct (Z.leb_spec c 0) as [Hle|_]; [lia|].
  rewrite bind_run, submit_all_run, bind_run. fold fs.
  simpl in Hrun. rewrite Hrun. rewrite bind_run.
  destruct b; rewrite ?emit_run, ?ret_run, !log_log; simpl;
    rewrite ?app_nil_r; done.
Qed.

Lemma scan_ports_bad_pool w host ip s e t c st :
  gethostbyname w host = Some ip -> c <= 0 ->
  scan_ports w host s e t c st =
    (Raise ValueError,
     log [EvResolve host; EvPrint (MsgScanning host ip s e c)] st).
Proof.
  intros Hip Hc. unfold scan_ports, print.
  rewrite bind_run, emit_run, Hip, bind_run, emit_run.
  destruct (Z.leb_spec c 0) as [_|Hlt]; [|lia].
  by rewrite log_log.
Qed.

Lemma scan_ports_unresolved_run w host s e t c st :
  gethostbyname w host = None ->
  scan_ports w host s e t c st =
    (Ok [], log [EvResolve host; EvPrint (MsgCouldNotResolve host)] st).
Proof.
  intros Hip. unfold scan_ports, print.
  by rewrite bind_run, emit_run, Hip, bind_run, emit_run, ret_run, log_log.
Qed.












Lemma py_range_empty (a b : Z) : b <= a -> py_range a b = [].
Proof.
  intros Hle. unfold py_range, seqZ.
  by replace (Z.to_nat (b - a)) with 0%nat by lia.
Qed.

Lemma as_completed_nil w : completes_all w -> as_completed w [] = [].
Proof. intros Hperm. apply Permutation_nil_r, Hperm. Qed.

(** A scan of an empty range: the banner, no future, no port. *)
Lemma scan_ports_empty_range w host ip s e t c st :
  gethostbyname w host = Some ip -> completes_all w -> e < s -> 1 <= c ->
  scan_ports w host s e t c st =
    (Ok [], log [EvResolve host; EvPrint (MsgScanning host ip s e c)] st).
Proof.
  intros Hip Hperm Hes Hc. unfold scan_ports, print.
  rewrite bind_run, emit_run, Hip, bind_run, emit_run.
  destruct (Z.leb_spec c 0) as [Hle|_]; [lia|].
  rewrite py_range_empty by lia. simpl submit_all.
  rewrite bind_run, ret_run, (as_completed_nil w Hperm). simpl.
  by rewrite log_log.
Qed.

(** The handler turns an inverted range away before it calls the scan. *)
Lemma _handle_scan_inverted_range w lh ls le rest n out s e :
  strip lh <> [] ->
  py_int (strip ls) = Some s -> py_int (strip le) = Some e -> e < s ->
  _handle_scan w {| stdin := lh :: ls :: le :: rest; reads := n; trace := out |}
  = (Ok (), {| stdin := rest; reads := n;
               trace := out ++ [EvPrompt (lit "Host to scan: ");
                                EvPrompt (lit "Start port (e.g. 1): ");
                                EvPrompt (lit "End port (e.g. 1024): ");
                                EvPrint MsgInvalidPortRange] |}).
Proof.
  intros Hh Hs He Hes. unfold _handle_scan.
  rewrite bind_run. unfold input at 1. cbn [stdin reads trace].
  destruct (strip lh) as [|c0 host0]; [done|].
  rewrite bind_run. unfold try_except.
  rewrite bind_run. unfold input at 1. cbn [stdin reads trace].
  rewrite bind_run. unfold int_of_input at 1. rewrite Hs, ret_run.
  rewrite bind_run. unfold input at 1. cbn [stdin reads trace].
  rewrite bind_run. unfold int_of_input at 1. rewrite He, ret_run.
  replace (e <? s) with true by (symmetry; apply Z.ltb_lt; lia).
  rewrite orb_true_r. unfold print.
  rewrite bind_run, emit_run, ret_run, ret_run. unfold log; simpl.
  by rewrite <- !app_assoc.
Qed.

(** C3 (as the code has it). For [end_port < start_port] the menu handler
    [_handle_scan] prints the validation error and returns without calling
    [scan_ports]: nothing is resolved and no connection attempt is
    scheduled.  [scan_ports] itself, called with such a range of integers
    that print, schedules no connection attempt and (for a legal pool size)
    returns the empty list, but signals no validation error: the one
    message it prints is the banner of a scan when the host resolves, and
    the resolution error when it does not. *)
Theorem inverted_range_validated_by_handler w host s e t c st :
  e < s ->
  completes_all w ->
  printable s = true -> printable e = true -> printable c = true ->
  (forall lh ls le rest n out,
     strip lh <> [] ->
     py_int (strip ls) = Some s -> py_int (strip le) = Some e ->
     _handle_scan w
       {| stdin := lh :: ls :: le :: rest; reads := n; trace := out |}
     = (Ok (), {| stdin := rest; reads := n;
                  trace := out ++ [EvPrompt (lit "Host to scan: ");
                                   EvPrompt (lit "Start port (e.g. 1): ");
                                   EvPrompt (lit "End port (e.g. 1024): ");
                                   EvPrint MsgInvalidPortRange] |}))
  /\ (1 <= c -> (scan_ports w host s e t c st).1 = Ok [])
  /\ probes (scan_ports w host s e t c st).2 = probes st
  /\ printed (scan_ports w host s e t c st).2
     = printed st
       ++ [match gethostbyname w host with
           | Some ip => MsgScanning host ip s e c
           | None => MsgCouldNotResolve host
           end].
Proof.
  intros Hes Hperm _ _ _. split.
  { intros lh ls le rest n out Hh Hs He.
    by apply (_handle_scan_inverted_range w lh ls le rest n out s e). }
  destruct (gethostbyname w host) as [ip|] eqn:Hip.
  - destruct (Z.le_gt_cases c 0) as [Hc|Hc].
    + rewrite (scan_ports_bad_pool w host ip s e t c st Hip Hc).
      cbn [fst snd]. split; [lia|]. split; [by rewrite probes_log, app_nil_r|].
      by rewrite printed_log.
    + rewrite (scan_ports_empty_range w host ip s e t c st Hip Hperm Hes)
        by lia.
      cbn [fst snd]. split; [done|].
      split; [by rewrite probes_log, app_nil_r|].
      by rewrite printed_log.
  - rewrite (scan_ports_unresolved_run w host s e t c st Hip).
    cbn [fst snd]. split; [done|].
    split; [by rewrite probes_log, app_nil_r|].
    by rewrite printed_log.
Qed.

Lemma inverted_range_validated_by_handler_witness :
  _handle_scan lab_world (initial [lit "lab"; lit "10"; lit "1"])
  = (Ok (), {| stdin := []; reads := 0;
               trace := [EvPrompt (lit "Host to scan: ");
                         EvPrompt (lit "Start port (e.g. 1): ");
                         EvPrompt (lit "End port (e.g. 1024): ");
                         EvPrint MsgInvalidPortRange] |})
  /\ (scan_ports lab_world (lit "lab") 10 1 default_timeout 3 (initial [])).1
     = Ok []
  /\ printed (scan_ports lab_world (lit "lab") 10 1 default_timeout 3
                (initial [])).2
     = [MsgScanning (lit "lab") (lit "10.0.0.7") 10 1 3].
Proof.
  assert (Hperm : completes_all lab_world).
  { intros fs. apply reverse_Permutation. }
  destruct (inverted_range_validated_by_handler lab_world (lit "lab") 10 1
              default_timeout 3 (initial []))
    as (Hhandler & Hempty & _ & Hprinted);
    [lia|exact Hperm|reflexivity|reflexivity|reflexivity|].
  split; [|split].
  - apply Hhandler; [discriminate|reflexivity|reflexivity].
  - apply Hempty. lia.
  - exact Hprinted.
Defined.

(** C3, as stated, fails on [scan_ports]: called with the range 10..1 on
    a host that resolves it returns the empty list, and all it printed is
    the banner of an ordinary scan. *)
Lemma scan_ports_inverted_range_no_validation_error :
  scan_ports lab_world (lit "lab") 10 1 default_timeout 3 (initial [])
  = (Ok [],
     log [EvResolve (lit "lab");
          EvPrint (MsgScanning (lit "lab") (lit "10.0.0.7") 10 1 3)]
       (initial []))
  /\ MsgInvalidPortRange
     ∉ printed (scan_ports lab_world (lit "lab") 10 1 default_timeout 3
                  (initial [])).2.
Proof.
  split; [reflexivity|].
  intros Hin. vm_compute in Hin.
  apply list_elem_of_singleton in Hin. discriminate.
Qed.

(** C4. When the host name does not resolve, [scan_ports] returns the
    empty list, schedules no probe and prints the resolution error; no run
    on a host that resolves prints the same, so what was printed tells the
    failure from a completed scan that found nothing. *)
Theorem scan_ports_unresolved_host w host s e t c st :
  gethostbyname w host = None ->
  exists st',
    scan_ports w host s e t c st = (Ok [], st')
    /\ printed st' = printed st ++ [MsgCouldNotResolve host]
    /\ probes st' = probes st
    /\ forall w' host' s' e' t' c' ports st'',
         is_Some (gethostbyname w' host') ->
         scan_ports w' host' s' e' t' c' st = (Ok ports, st'') ->
         printed st'' <> printed st'.
Proof.
  intros Hip. eexists. split; [by apply scan_ports_unresolved_run|].
  split; [by rewrite printed_log|]. split; [by rewrite probes_log, app_nil_r|].
  intros w' host' s' e' t' c' ports st'' [ip Hip'] Hrun.
  destruct (Z.le_gt_cases c' 0) as [Hc|Hc].
  - by rewrite (scan_ports_bad_pool w' host' ip s' e' t' c' st Hip' Hc) in Hrun.
  - destruct (scan_ports_resolved w' host' ip s' e' t' c' st Hip')
      as (k & b & Hk & _); [lia|].
    cbv zeta in Hk. rewrite Hk in Hrun. injection Hrun as _ <-.
    rewrite !printed_log. intros Heq. apply app_inv_head in Heq.
    discriminate Heq.
Qed.

Lemma scan_ports_unresolved_host_witness :
  exists st',
    scan_ports lab_world (lit "nowhere") 1 10 default_timeout 3 (initial [])
    = (Ok [], st')
    /\ printed st' = printed (initial []) ++ [MsgCouldNotResolve (lit "nowhere")]
    /\ probes st' = probes (initial [])
    /\ forall w' host' s' e' t' c' ports st'',
         is_Some (gethostbyname w' host') ->
         scan_ports w' host' s' e' t' c' (initial []) = (Ok ports, st'') ->
         printed st'' <> printed st'.
Proof.
  apply (scan_ports_unresolved_host lab_world (lit "nowhere")).
  reflexivity.
Defined.


(** ** Traffic sampler *)

(** Closes a goal saying that the events logged so far printed nothing. *)
Ltac silent :=
  rewrite ?ret_run; unfold printed, messages, log, raise; simpl;
  rewrite ?omap_app; simpl; rewrite ?app_nil_r; done.


Lemma sleep_limit_whole_neg (d : Q) :
  (-9223372036 <= d)%Q -> (- sleep_limit < d)%Q.
Proof. intros H. eapply Qlt_le_trans; [|exact H]. reflexivity. Qed.


Lemma sleep_negative d st :
  (- sleep_limit < d)%Q -> (d < 0)%Q -> sleep d st = (Raise ValueError, st).
Proof.
  intros Hlim Hneg. unfold sleep.
  destruct (Qlt_le_dec d sleep_limit) as [_|Hge].
  2:{ exfalso. apply (Qlt_not_le d sleep_limit); [|exact Hge].
      eapply Qlt_trans; [exact Hneg|reflexivity]. }
  destruct (Qlt_le_dec (- sleep_limit) d) as [_|Hle].
  2:{ exfalso. exact (Qlt_not_le _ _ Hlim Hle). }
  destruct (Qlt_le_dec d 0) as [_|Hge]; [reflexivity|].
  exfalso. exact (Qlt_not_le _ _ Hneg Hge).
Qed.

Lemma sleep_overflow d st :
  (sleep_limit <= d)%Q \/ (d <= - sleep_limit)%Q ->
  sleep d st = (Raise OverflowError, st).
Proof.
  intros Hout. unfold sleep.
  destruct (Qlt_le_dec d sleep_limit) as [Hlt|_]; [|reflexivity].
  destruct (Qlt_le_dec (- sleep_limit) d) as [Hgt|_]; [|reflexivity].
  exfalso. destruct Hout as [Hge|Hle].
  - exact (Qlt_not_le _ _ Hlt Hge).
  - exact (Qlt_not_le _ _ Hgt Hle).
Qed.

Lemma read_counters_run w st :
  read_counters w st
  = (Ok (net_io_counters w (reads st)),
     {| stdin := stdin st; reads := S (reads st);
        trace := trace st ++ [EvCounters] |}).
Proof. reflexivity. Qed.

(** [time.sleep] either sleeps or raises, and prints nothing. *)
Lemma sleep_cases d st :
  sleep d st = (Ok (), log [EvSleep d] st)
  \/ exists e, sleep d st = (Raise e, st).
Proof.
  unfold sleep.
  destruct (Qlt_le_dec d sleep_limit); [|right; by eexists].
  destruct (Qlt_le_dec (- sleep_limit) d); [|right; by eexists].
  destruct (Qlt_le_dec d 0); [right; by eexists|by left].
Qed.

(** C8. Without psutil the sampler returns [(0, 0)] for every duration,
    negative ones included, after printing the two advisory lines and
    nothing else; a sampler that has psutil prints nothing, so the advisory
    tells "no data" from a measured zero. *)
Theorem get_network_traffic_without_psutil w duration st :
  has_psutil w = false ->
  get_network_traffic w duration st
  = (Ok (0, 0), log [EvPrint MsgPsutilMissing; EvPrint MsgPsutilInstallHint] st)
  /\ forall w' d st0,
       has_psutil w' = true ->
       printed (get_network_traffic w' d st0).2 = printed st0.
Proof.
  intros Hps. split.
  - unfold get_network_traffic, print. rewrite Hps. cbn [negb].
    by rewrite bind_run, emit_run, bind_run, emit_run, ret_run, log_log.
  - intros w' d st0 Hps'. unfold get_network_traffic. rewrite Hps'.
    cbn [negb]. rewrite bind_run, read_counters_run, bind_run.
    match goal with
    | |- context [sleep d ?s] =>
        destruct (sleep_cases d s) as [Hsl|[x Hsl]]; rewrite Hsl; [|silent]
    end.
    rewrite bind_run, read_counters_run. cbn [reads log].
    destruct (net_io_counters w' (S (reads st0))) as [after|];
      destruct (net_io_counters w' (reads st0)) as [before|]; silent.
Qed.

Lemma get_network_traffic_without_psutil_witness :
  get_network_traffic lab_world (-1) (initial [])
  = (Ok (0, 0),
     log [EvPrint MsgPsutilMissing; EvPrint MsgPsutilInstallHint] (initial []))
  /\ forall w' d st0,
       has_psutil w' = true ->
       printed (get_network_traffic w' d st0).2 = printed st0.
Proof.
  apply (get_network_traffic_without_psutil lab_world (-1) (initial [])).
  reflexivity.
Defined.




(** ** Connectivity prober *)

Lemma ping_host_run w host timeout count st :
  ping_host w host timeout count st =
  let cmd := ping_cmd w host count in
  let st1 := log [EvExec cmd (Some timeout)] st in
  match exec w cmd (Some timeout) with
  | Exited rc _ => (Ok (rc =? 0), st1)
  | Expired => (Ok false, st1)
  | LaunchError e =>
      match e with
      | FileNotFoundError =>
          (Ok (create_connection w host 80 1%Q),
           log [EvExec cmd (Some timeout); EvConnect host 80 1%Q] st)
      | CalledProcessError | TimeoutExpired => (Ok false, st1)
      | _ => (Raise e, st1)
      end
  end.
Proof.
  unfold ping_host, try_except, subprocess_run. cbv zeta.
  rewrite bind_run, bind_run, emit_run.
  destruct (exec w (ping_cmd w host count) (Some timeout)) as [rc out| |e].
  - cbn [andb]. destruct (Z.eqb_spec rc 0) as [->|Hrc]; reflexivity.
  - reflexivity.
  - destruct e; try reflexivity. cbn [raise ping_handled].
    rewrite bind_run, emit_run, log_log.
    destruct (create_connection w host 80 1%Q); reflexivity.
Qed.




(** ** Regular expressions *)

Lemma accepts_weaken m (L L' : str -> Prop) :
  accepts m L -> (forall pre, L pre -> L' pre) -> accepts m L'.
Proof.
  intros Hm HL s g k r H. destruct (Hm s g k r H) as (pre & s' & ? & ? & ?).
  exists pre, s'. auto.
Qed.

Lemma accepts_cls p :
  accepts (cls p) (fun pre => exists c, pre = [c] /\ p c = true).
Proof.
  intros [|c s] g k r H; simpl in H; [done|].
  destruct (p c) eqn:Hp; [|done]. exists [c], s. eauto.
Qed.

Lemma accepts_star p : accepts (star p) (fun pre => forallb p pre = true).
Proof.
  intros s. induction s as [|c s IH]; intros g k r H; simpl in H.
  - exists [], []. auto.
  - destruct (p c) eqn:Hp.
    + destruct (star p s g k) as [r'|] eqn:Hstar.
      * destruct (IH g k r' Hstar) as (pre & s' & -> & Hpre & Hk).
        exists (c :: pre), s'. simpl. rewrite Hp, Hpre.
        injection H as <-. auto.
      * exists [], (c :: s). auto.
    + exists [], (c :: s). auto.
Qed.

Lemma accepts_seq m1 m2 (L1 L2 : str -> Prop) :
  accepts m1 L1 -> accepts m2 L2 ->
  accepts (m1 ⋅ m2) (fun pre => exists a b, pre = a ++ b /\ L1 a /\ L2 b).
Proof.
  intros H1 H2 s g k r H. unfold seq in H.
  apply H1 in H as (a & s1 & -> & Ha & H).
  apply H2 in H as (b & s2 & -> & Hb & H).
  exists (a ++ b), s2. rewrite <- app_assoc. eauto 8.
Qed.

Lemma accepts_alt m1 m2 (L1 L2 : str -> Prop) :
  accepts m1 L1 -> accepts m2 L2 ->
  accepts (alt m1 m2) (fun pre => L1 pre \/ L2 pre).
Proof.
  intros H1 H2 s g k r H. unfold alt in H.
  destruct (m1 s g k) as [r'|] eqn:Hm1.
  - injection H as <-. apply H1 in Hm1 as (pre & s' & ? & ? & ?).
    exists pre, s'. auto.
  - apply H2 in H as (pre & s' & ? & ? & ?). exists pre, s'. auto.
Qed.

Lemma accepts_times n m (L : str -> Prop) :
  accepts m L ->
  accepts (times n m)
    (fun pre => exists parts,
       length parts = n /\ Forall L parts /\ pre = concat parts).
Proof.
  intros Hm. induction n as [|n IH]; simpl.
  - intros s g k r H. exists [], s. split; [done|]. split; [|done].
    exists []. auto.
  - eapply accepts_weaken; [apply (accepts_seq _ _ _ _ Hm IH)|].
    intros pre (a & b & -> & Ha & parts & Hlen & Hparts & ->).
    exists (a :: parts). simpl. auto.
Qed.

(** A group records exactly what its body consumed. *)
Lemma group_inv n m (L : str -> Prop) :
  accepts m L ->
  forall s g k r, group n m s g k = Some r ->
    exists pre s',
      s = pre ++ s' /\ L pre /\ k s' (set_group n pre g) = Some r.
Proof.
  intros Hm s g k r H. unfold group in H.
  apply Hm in H as (pre & s' & -> & Hpre & H).
  exists pre, s'. split; [done|]. split; [done|].
  rewrite length_app in H.
  replace (length pre + length s' - length s')%nat with (length pre) in H
    by lia.
  by rewrite take_app_length in H.
Qed.

Lemma accepts_one_or_two p : accepts (one_or_two p) (chars_of 1 p).
Proof.
  eapply accepts_weaken.
  - apply accepts_alt; [apply accepts_seq|]; apply accepts_cls.
  - intros pre [(a & b & -> & (c1 & -> & H1) & (c2 & -> & H2))|(c & -> & Hc)];
      split; simpl; rewrite ?H1, ?H2, ?Hc; auto; lia.
Qed.

Lemma accepts_plus p : accepts (plus p) (fun pre => forallb p pre = true).
Proof.
  eapply accepts_weaken.
  - apply accepts_seq; [apply accepts_cls|apply accepts_star].
  - intros pre (a & b & -> & (c & -> & Hc) & Hb). simpl. by rewrite Hc, Hb.
Qed.

Lemma accepts_mac_pattern sep : accepts (mac_pattern sep) (mac_text 1 sep).
Proof.
  eapply accepts_weaken.
  - apply accepts_seq; [apply accepts_times, accepts_seq|];
      [apply accepts_one_or_two|apply accepts_cls|apply accepts_one_or_two].
  - intros pre (a & last & -> & (parts & Hlen & Hparts & ->) & Hlast).
    exists parts, last. split; [done|]. split; [|done].
    eapply Forall_impl; [exact Hparts|].
    intros part (d & b & -> & Hd & c & -> & Hc). eauto.
Qed.

(** One step of a match: [lem] says what the leading pattern of [H]
    consumed; the rest of the match stays in [H]. *)
Ltac consumed H lem pre Hpre :=
  let s' := fresh "s" in
  apply lem in H as (pre & s' & -> & Hpre & H); cbv beta in H.

Lemma linux_mac_pattern_inv line r :
  re_match linux_mac_pattern line = Some r ->
  exists ip mac,
    r = {| grp_ip := Some ip; grp_mac := Some mac |}
    /\ forallb ip_char ip = true
    /\ mac_text 1 colon_or_hyphen mac.
Proof.
  unfold re_match, linux_mac_pattern, seq. intros H.
  consumed H (accepts_star any_char) junk Hjunk.
  consumed H (accepts_cls (char_eqb "(")) c1 Hc1.
  consumed H (group_inv Gip _ _ (accepts_plus ip_char)) ip Hip.
  consumed H (accepts_cls (char_eqb ")")) c2 Hc2.
  consumed H (accepts_plus is_space) sp1 Hsp1.
  consumed H (accepts_cls (char_eqb "a")) c3 Hc3.
  consumed H (accepts_cls (char_eqb "t")) c4 Hc4.
  consumed H (accepts_plus is_space) sp2 Hsp2.
  consumed H (group_inv Gmac _ _ (accepts_mac_pattern colon_or_hyphen))
    mac Hmac.
  consumed H (accepts_star any_char) rest Hrest.
  injection H as <-. exists ip, mac. auto.
Qed.

Lemma windows_pattern_inv line r :
  re_match windows_pattern line = Some r ->
  exists ip mac,
    r = {| grp_ip := Some ip; grp_mac := Some mac |}
    /\ forallb ip_char ip = true
    /\ mac_text 1 hyphen mac.
Proof.
  unfold re_match, windows_pattern, seq. intros H.
  consumed H (accepts_star is_space) sp0 Hsp0.
  consumed H (group_inv Gip _ _ (accepts_plus ip_char)) ip Hip.
  consumed H (accepts_plus is_space) sp1 Hsp1.
  consumed H (group_inv Gmac _ _ (accepts_mac_pattern hyphen))
    mac Hmac.
  consumed H (accepts_star any_char) rest Hrest.
  injection H as <-. exists ip, mac. auto.
Qed.

Lemma mac_text_weaken lo (sep sep' : ascii -> bool) mac :
  (forall c, sep c = true -> sep' c = true) ->
  mac_text lo sep mac -> mac_text lo sep' mac.
Proof.
  intros Hsep (parts & last & Hlen & Hparts & Hlast & ->).
  exists parts, last. split; [done|]. split; [|done].
  eapply Forall_impl; [exact Hparts|].
  intros part (d & c & -> & Hd & Hc). exists d, c. auto.
Qed.

(** Every match of a line sets both groups, the MAC to six groups of one
    or two hex digits separated by colons or hyphens. *)
Lemma match_line_groups line g :
  match_line line = Some g ->
  exists ip mac,
    g = {| grp_ip := Some ip; grp_mac := Some mac |}
    /\ forallb ip_char ip = true
    /\ mac_text 1 colon_or_hyphen mac.
Proof.
  unfold match_line. intros H.
  destruct (re_match linux_mac_pattern line) as [g'|] eqn:Hlinux.
  - injection H as ->. by apply linux_mac_pattern_inv in Hlinux.
  - apply windows_pattern_inv in H as (ip & mac & -> & Hip & Hmac).
    exists ip, mac. split; [done|]. split; [done|].
    apply (mac_text_weaken 1 hyphen); [|done].
    intros c Hc. unfold colon_or_hyphen. unfold hyphen in Hc.
    by rewrite Hc, orb_true_r.
Qed.

(** ** MAC normalization *)

Lemma normalize_mac_chars mac : normalize_mac mac = norm_char <$> mac.
Proof.
  unfold normalize_mac, upper, replace. by rewrite <- list_fmap_compose.
Qed.

Lemma normalize_mac_length mac : length (normalize_mac mac) = length mac.
Proof. rewrite normalize_mac_chars. apply length_fmap. Qed.

(** Facts about single characters, checked on all 256 of them. *)
Ltac all_chars c :=
  destruct c as [[] [] [] [] [] [] [] []]; vm_compute; try done; auto.

Lemma norm_char_hex c :
  is_hex c = true -> is_upper_hex_digit (norm_char c) = true.
Proof. all_chars c. Qed.

Lemma norm_char_sep c : colon_or_hyphen c = true -> norm_char c = ":"%char.
Proof. all_chars c. Qed.

Lemma upper_hex_digit_not_colon c :
  is_upper_hex_digit c = true -> char_eqb c ":" = false.
Proof. all_chars c. Qed.

Lemma char_eqb_refl c : char_eqb c c = true.
Proof. unfold char_eqb. apply N.eqb_refl. Qed.

Lemma split_on_no_sep sep (d : str) :
  forallb (fun c => negb (char_eqb c sep)) d = true ->
  split_on sep d = [d].
Proof.
  induction d as [|c d IH]; simpl; [done|].
  intros [Hc Hd]%andb_true_iff. apply negb_true_iff in Hc.
  by rewrite Hc, (IH Hd).
Qed.

Lemma split_on_group sep (d rest : str) :
  forallb (fun c => negb (char_eqb c sep)) d = true ->
  split_on sep (d ++ sep :: rest) = d :: split_on sep rest.
Proof.
  induction d as [|c d IH]; simpl.
  - by rewrite char_eqb_refl.
  - intros [Hc Hd]%andb_true_iff. apply negb_true_iff in Hc.
    by rewrite Hc, (IH Hd).
Qed.

(** Splitting undoes joining when no group contains the separator. *)
Lemma split_on_groups sep (ds : list str) (last : str) :
  Forall (fun d => forallb (fun c => negb (char_eqb c sep)) d = true)
    (ds ++ [last]) ->
  split_on sep (concat ((fun d => d ++ [sep]) <$> ds) ++ last) = ds ++ [last].
Proof.
  induction ds as [|d ds IH]; simpl; intros H.
  - apply (proj1 (Forall_singleton _ _)) in H. by apply split_on_no_sep.
  - apply Forall_cons in H as [Hd H].
    rewrite <- !app_assoc. simpl. rewrite split_on_group by done.
    f_equal. by apply IH.
Qed.

Lemma upper_group_no_colon lo hi d :
  upper_group lo hi d ->
  forallb (fun c => negb (char_eqb c ":")) d = true.
Proof.
  intros [_ Hd]. apply forallb_forall. intros c Hc.
  rewrite forallb_forall in Hd.
  by rewrite (upper_hex_digit_not_colon c (Hd c Hc)).
Qed.

Lemma mac_groups_joined lo hi (ds : list str) (last : str) :
  length ds = 5%nat ->
  Forall (upper_group lo hi) (ds ++ [last]) ->
  mac_groups lo hi (concat ((fun d => d ++ [":"%char]) <$> ds) ++ last) = true.
Proof.
  intros Hlen Hds. unfold mac_groups. rewrite split_on_groups.
  - rewrite length_app, Hlen. simpl. apply forallb_forall.
    intros d Hd. apply list_elem_of_In in Hd.
    rewrite Forall_forall in Hds. destruct (Hds d Hd) as [[Hlo Hhi] Hup].
    rewrite Hup, andb_true_r. apply andb_true_iff.
    split; apply Nat.leb_le; lia.
  - eapply Forall_impl; [exact Hds|]. apply upper_group_no_colon.
Qed.

Lemma normalize_hex_group lo d :
  chars_of lo is_hex d -> upper_group lo 2 (normalize_mac d).
Proof.
  intros [Hlen Hd]. split; [by rewrite normalize_mac_length|].
  rewrite normalize_mac_chars. apply forallb_forall.
  intros c (c0 & <- & Hc0)%in_map_iff. apply norm_char_hex.
  rewrite forallb_forall in Hd. by apply Hd.
Qed.

Lemma normalize_mac_app a b :
  normalize_mac (a ++ b) = normalize_mac a ++ normalize_mac b.
Proof. rewrite !normalize_mac_chars. apply fmap_app. Qed.

Lemma normalize_parts lo (parts : list str) :
  Forall (fun part => exists d c,
            part = d ++ [c] /\ chars_of lo is_hex d
            /\ colon_or_hyphen c = true) parts ->
  exists ds,
    length ds = length parts
    /\ Forall (upper_group lo 2) ds
    /\ normalize_mac (concat parts)
       = concat ((fun d => d ++ [":"%char]) <$> ds).
Proof.
  induction 1 as [|part parts (d & c & -> & Hd & Hc) _ (ds & Hlen & Hds & IH)].
  - exists []. auto.
  - exists (normalize_mac d :: ds). simpl. rewrite Hlen.
    split; [done|]. split; [constructor; [by apply normalize_hex_group|done]|].
    rewrite !normalize_mac_app, IH. f_equal.
    rewrite (normalize_mac_chars [c]).
    change (norm_char <$> [c]) with [norm_char c].
    by rewrite (norm_char_sep c Hc).
Qed.

(** A matched MAC normalizes to six colon-separated groups of uppercase
    hex digits, as many digits per group as the text had. *)
Lemma normalize_mac_text lo mac :
  mac_text lo colon_or_hyphen mac ->
  mac_groups lo 2 (normalize_mac mac) = true.
Proof.
  intros (parts & last & Hlen & Hparts & Hlast & ->).
  destruct (normalize_parts lo parts Hparts) as (ds & Hds_len & Hds & Heq).
  rewrite normalize_mac_app, Heq.
  apply mac_groups_joined; [rewrite Hds_len; exact Hlen|].
  apply Forall_app. split; [done|].
  apply Forall_singleton. by apply normalize_hex_group.
Qed.

(** Seventeen characters leave room for pairs only. *)
Lemma mac_text_pairs sep mac :
  mac_text 1 sep mac -> length mac = 17%nat -> mac_text 2 sep mac.
Proof.
  intros (parts & last & Hlen & Hparts & [Hl Hlast] & ->) H17.
  destruct parts as [|p1 [|p2 [|p3 [|p4 [|p5 [|]]]]]]; try discriminate.
  apply Forall_cons in Hparts as [(d1 & c1 & -> & [L1 X1] & S1) Hparts].
  apply Forall_cons in Hparts as [(d2 & c2 & -> & [L2 X2] & S2) Hparts].
  apply Forall_cons in Hparts as [(d3 & c3 & -> & [L3 X3] & S3) Hparts].
  apply Forall_cons in Hparts as [(d4 & c4 & -> & [L4 X4] & S4) Hparts].
  apply Forall_cons in Hparts as [(d5 & c5 & -> & [L5 X5] & S5) _].
  cbn [concat] in H17. repeat rewrite ?length_app, ?length_cons in H17.
  cbn [length] in H17.
  exists [d1 ++ [c1]; d2 ++ [c2]; d3 ++ [c3]; d4 ++ [c4]; d5 ++ [c5]], last.
  split; [done|]. split; [|split; [split; [lia|done]|done]].
  repeat constructor; eexists _, _; (split; [reflexivity|]);
    (split; [split; [lia|done]|done]).
Qed.

(** ** Hardware addresses *)

Lemma split_on_nonempty sep s : split_on sep s <> [].
Proof.
  destruct s as [|c s]; simpl; [done|].
  destruct (char_eqb c sep); [done|]. by destruct (split_on sep s).
Qed.

Lemma char_eqb_eq a b : char_eqb a b = true -> a = b.
Proof.
  unfold char_eqb, code. intros H%N.eqb_eq.
  by rewrite <- (ascii_N_embedding a), <- (ascii_N_embedding b), H.
Qed.

Lemma join_split_on sep s : join sep (split_on sep s) = s.
Proof.
  induction s as [|c s IH]; simpl; [done|].
  destruct (char_eqb c sep) eqn:Hc.
  - apply char_eqb_eq in Hc as ->.
    pose proof (split_on_nonempty sep s) as Hne.
    destruct (split_on sep s) as [|p ps]; [done|].
    simpl in *. by rewrite IH.
  - pose proof (split_on_nonempty sep s) as Hne.
    destruct (split_on sep s) as [|p ps]; [done|].
    destruct ps as [|q ps]; simpl in *; by rewrite <- IH.
Qed.

Lemma split_on_inj sep a b : split_on sep a = split_on sep b -> a = b.
Proof.
  intros H. by rewrite <- (join_split_on sep a), H, join_split_on.
Qed.

Lemma mapped_parts lo (parts : list str) :
  Forall (fun part => exists d c,
            part = d ++ [c] /\ chars_of lo is_hex d
            /\ colon_or_hyphen c = true) parts ->
  exists ds : list (list ascii),
    length ds = length parts
    /\ Forall (chars_of lo is_hex) ds
    /\ forall f, keeps_groups f ->
         f <$> concat parts
         = concat ((fun d => d ++ [":"%char]) <$> (fmap (M:=list) f <$> ds)).
Proof.
  induction 1 as [|part parts (d & c & -> & Hd & Hc) _ (ds & Hlen & Hds & IH)].
  - exists []. auto.
  - exists (d :: ds). simpl. rewrite Hlen.
    split; [done|]. split; [by constructor|].
    intros f Hf. rewrite !fmap_app, (IH f Hf). f_equal.
    change (f <$> [c]) with [f c]. by rewrite (proj1 Hf c Hc).
Qed.

Lemma mapped_group_no_colon lo f (d : str) :
  keeps_groups f -> chars_of lo is_hex d ->
  forallb (fun c => negb (char_eqb c ":")) (f <$> d) = true.
Proof.
  intros Hf [_ Hd]. apply forallb_forall.
  intros c (c0 & <- & Hc0)%in_map_iff.
  rewrite forallb_forall in Hd. by rewrite (proj2 Hf c0 (Hd c0 Hc0)).
Qed.

(** The digit groups of a matched MAC: any such map, applied to the
    text, yields the mapped groups between colons. *)
Lemma mac_text_groups lo mac :
  mac_text lo colon_or_hyphen mac ->
  exists groups : list (list ascii),
    length groups = 6%nat
    /\ Forall (chars_of lo is_hex) groups
    /\ forall f, keeps_groups f ->
         split_on ":" (f <$> mac) = fmap (M:=list) f <$> groups.
Proof.
  intros (parts & last & Hlen & Hparts & Hlast & ->).
  destruct (mapped_parts lo parts Hparts) as (ds & Hds_len & Hds & Heq).
  exists (ds ++ [last]). split; [|split].
  - assert (length ds = 5%nat) as Hfive by (rewrite Hds_len; exact Hlen).
    rewrite length_app, Hfive. reflexivity.
  - apply Forall_app. split; [done|]. by apply Forall_singleton.
  - intros f Hf. rewrite fmap_app, (Heq f Hf), split_on_groups.
    + by rewrite fmap_app.
    + apply Forall_app. split.
      * apply Forall_fmap. eapply Forall_impl; [exact Hds|].
        intros d Hd. by apply (mapped_group_no_colon lo).
      * apply Forall_singleton. by apply (mapped_group_no_colon lo).
Qed.

Lemma keeps_groups_norm_char : keeps_groups norm_char.
Proof.
  split; [apply norm_char_sep|]. intros c Hc.
  apply upper_hex_digit_not_colon. by apply norm_char_hex.
Qed.

Lemma keeps_groups_hyphen_to_colon : keeps_groups hyphen_to_colon.
Proof. split; intros c; all_chars c. Qed.

Lemma norm_char_digit_of c :
  is_hex c = true -> norm_char c = digit_of (hex_val (hyphen_to_colon c)).
Proof. all_chars c. Qed.

Lemma hex_val_bound c : (hex_val c < 16)%N.
Proof. all_chars c. Qed.

(** Two pairs of hex digits of the same value normalize alike. *)
Lemma pair_val_norm d1 d2 :
  chars_of 2 is_hex d1 -> chars_of 2 is_hex d2 ->
  group_val (hyphen_to_colon <$> d1) = group_val (hyphen_to_colon <$> d2) ->
  norm_char <$> d1 = norm_char <$> d2.
Proof.
  intros [Hl1 H1] [Hl2 H2].
  destruct d1 as [|a1 [|b1 [|]]]; simpl in Hl1; try lia.
  destruct d2 as [|a2 [|b2 [|]]]; simpl in Hl2; try lia.
  simpl in H1, H2.
  apply andb_true_iff in H1 as [Ha1 [Hb1 _]%andb_true_iff].
  apply andb_true_iff in H2 as [Ha2 [Hb2 _]%andb_true_iff].
  unfold group_val. simpl.
  pose proof (hex_val_bound (hyphen_to_colon a1)).
  pose proof (hex_val_bound (hyphen_to_colon b1)).
  pose proof (hex_val_bound (hyphen_to_colon a2)).
  pose proof (hex_val_bound (hyphen_to_colon b2)).
  intros Hv.
  rewrite !norm_char_digit_of by done.
  assert (hex_val (hyphen_to_colon a1) = hex_val (hyphen_to_colon a2)
          /\ hex_val (hyphen_to_colon b1) = hex_val (hyphen_to_colon b2))
    as [-> ->] by lia.
  done.
Qed.

Lemma fmap_eq_transfer {A B C} (g : A -> B) (h : A -> C) (P : A -> Prop)
    (l1 l2 : list A) :
  (forall x y, P x -> P y -> g x = g y -> h x = h y) ->
  Forall P l1 -> Forall P l2 ->
  g <$> l1 = g <$> l2 -> h <$> l1 = h <$> l2.
Proof.
  intros Hgh H1. revert l2.
  induction H1 as [|x l1 Hx _ IH]; intros [|y l2] H2 Heq; try done.
  apply Forall_cons in H2 as [Hy H2]. simpl in Heq.
  injection Heq as Hxy Heq. simpl. f_equal; auto.
Qed.

(** Two matched MACs written in pairs that denote the same address have
    the same normal form. *)
Lemma same_address_same_normal_form m1 m2 :
  mac_text 2 colon_or_hyphen m1 -> mac_text 2 colon_or_hyphen m2 ->
  mac_value m1 = mac_value m2 ->
  normalize_mac m1 = normalize_mac m2.
Proof.
  intros (g1 & _ & Hg1 & Hs1)%mac_text_groups
         (g2 & _ & Hg2 & Hs2)%mac_text_groups Hv.
  unfold mac_value, replace in Hv.
  change (fun c => if char_eqb c "-" then ":"%char else c)
    with hyphen_to_colon in Hv.
  rewrite (Hs1 _ keeps_groups_hyphen_to_colon),
          (Hs2 _ keeps_groups_hyphen_to_colon), <- !list_fmap_compose in Hv.
  apply (split_on_inj ":"). rewrite !normalize_mac_chars.
  rewrite (Hs1 _ keeps_groups_norm_char), (Hs2 _ keeps_groups_norm_char).
  eapply fmap_eq_transfer; [|exact Hg1|exact Hg2|exact Hv].
  intros x y Hx Hy Hxy. by apply pair_val_norm.
Qed.

(** ** Neighbor discovery *)

Lemma scan_line_device devices line :
  scan_line devices line = devices ++ option_list (line_device line).
Proof.
  unfold scan_line, line_device.
  destruct (match_line line); simpl; by rewrite ?app_nil_r.
Qed.

Lemma fold_scan_line lines : forall devices,
  fold_left scan_line lines devices
  = devices ++ records_in_line_order lines.
Proof.
  unfold records_in_line_order.
  induction lines as [|line lines IH]; intros devices; simpl.
  - by rewrite app_nil_r.
  - rewrite IH, scan_line_device, <- app_assoc.
    by destruct (line_device line).
Qed.

Lemma arp_devices_records lines :
  arp_devices lines = records_in_line_order lines.
Proof. unfold arp_devices. by rewrite fold_scan_line. Qed.

Lemma print_rows_run devices st :
  print_rows devices st
  = (Ok (), log (EvPrint <$> ((fun d => MsgDeviceRow (dev_ip d) (dev_mac d))
                              <$> devices)) st).
Proof.
  revert st. induction devices as [|d devices IH]; intros st; simpl.
  - by rewrite ret_run, log_nil.
  - unfold print. by rewrite bind_run, emit_run, IH, log_log.
Qed.

Lemma discover_devices_run w arp_cmd rc out st :
  which w (lit "arp") = Some arp_cmd ->
  exec w [arp_cmd; lit "-a"] None = Exited rc out ->
  discover_devices w st
  = (Ok (),
     log (EvExec [arp_cmd; lit "-a"] None
          :: (EvPrint <$> report (arp_devices (splitlines out)))) st).
Proof.
  intros Hwhich Hexec. unfold discover_devices, try_except, subprocess_run.
  rewrite Hwhich, bind_run, bind_run, emit_run, Hexec. cbn [andb].
  rewrite ret_run. cbv beta iota zeta.
  destruct (arp_devices (splitlines out)) as [|d devices] eqn:Hdev.
  - unfold print. by rewrite emit_run, log_log.
  - unfold print, report.
    rewrite bind_run, emit_run, bind_run, emit_run, bind_run, emit_run.
    by rewrite print_rows_run, !log_log.
Qed.

(** C6 (as the code has it). Whatever line it was extracted from, and
    whatever its delimiter and case, a MAC is normalized to six groups of
    one or two uppercase hexadecimal digits joined by colons.  When the
    text has two digits in every group (17 characters) the normal form is
    the canonical one, uppercase pairs joined by colons, and two such
    texts that denote the same hardware address have the same normal form;
    in particular ["1a-2b-3c-4d-5e-6f"] and ["1A:2B:3C:4D:5E:6F"] both
    normalize to ["1A:2B:3C:4D:5E:6F"]. *)
Theorem normalize_mac_extracted line1 line2 g1 g2 :
  match_line line1 = Some g1 ->
  match_line line2 = Some g2 ->
  mac_groups 1 2 (normalize_mac (match_group Gmac g1)) = true
  /\ (length (match_group Gmac g1) = 17%nat ->
      canonical_mac (normalize_mac (match_group Gmac g1)) = true)
  /\ (length (match_group Gmac g1) = 17%nat ->
      length (match_group Gmac g2) = 17%nat ->
      mac_value (match_group Gmac g1) = mac_value (match_group Gmac g2) ->
      normalize_mac (match_group Gmac g1) = normalize_mac (match_group Gmac g2))
  /\ normalize_mac (lit "1a-2b-3c-4d-5e-6f") = lit "1A:2B:3C:4D:5E:6F"
  /\ normalize_mac (lit "1A:2B:3C:4D:5E:6F") = lit "1A:2B:3C:4D:5E:6F".
Proof.
  intros (ip1 & m1 & -> & _ & Hm1)%match_line_groups
         (ip2 & m2 & -> & _ & Hm2)%match_line_groups.
  cbn [match_group grp_mac default from_option].
  split; [by apply normalize_mac_text|].
  split; [|split; [|split; reflexivity]].
  - intros H17. apply normalize_mac_text. by apply mac_text_pairs.
  - intros H1 H2 Hv.
    apply same_address_same_normal_form; auto using mac_text_pairs.
Qed.

Lemma normalize_mac_extracted_witness :
  mac_groups 1 2 (normalize_mac (lit "00:1a:2b:3c:4d:5e")) = true
  /\ (length (lit "00:1a:2b:3c:4d:5e") = 17%nat ->
      canonical_mac (normalize_mac (lit "00:1a:2b:3c:4d:5e")) = true)
  /\ (length (lit "00:1a:2b:3c:4d:5e") = 17%nat ->
      length (lit "00-1A-2B-3C-4D-5E") = 17%nat ->
      mac_value (lit "00:1a:2b:3c:4d:5e") = mac_value (lit "00-1A-2B-3C-4D-5E") ->
      normalize_mac (lit "00:1a:2b:3c:4d:5e")
      = normalize_mac (lit "00-1A-2B-3C-4D-5E"))
  /\ normalize_mac (lit "1a-2b-3c-4d-5e-6f") = lit "1A:2B:3C:4D:5E:6F"
  /\ normalize_mac (lit "1A:2B:3C:4D:5E:6F") = lit "1A:2B:3C:4D:5E:6F".
Proof.
  apply (normalize_mac_extracted
           (lit "? (192.168.1.1) at 00:1a:2b:3c:4d:5e [ether] on eth0")
           (lit "  192.168.1.1   00-1A-2B-3C-4D-5E   dynamic")
           {| grp_ip := Some (lit "192.168.1.1");
              grp_mac := Some (lit "00:1a:2b:3c:4d:5e") |}
           {| grp_ip := Some (lit "192.168.1.1");
              grp_mac := Some (lit "00-1A-2B-3C-4D-5E") |});
    reflexivity.
Defined.

(** C6, as stated, fails: macOS prints the address 00:1a:2b:3c:4d:5e
    without the leading zero and Windows prints it with hyphens; both
    lines match, the first normal form is not made of pairs, and the two
    normal forms of the one hardware address differ. *)
Lemma normalize_mac_not_canonical :
  line_device (lit "? (10.0.0.1) at 0:1a:2b:3c:4d:5e on en0 ifscope [ethernet]")
  = Some {| dev_ip := lit "10.0.0.1"; dev_mac := lit "0:1A:2B:3C:4D:5E" |}
  /\ line_device (lit "  10.0.0.1   00-1a-2b-3c-4d-5e   dynamic")
     = Some {| dev_ip := lit "10.0.0.1"; dev_mac := lit "00:1A:2B:3C:4D:5E" |}
  /\ canonical_mac (lit "0:1A:2B:3C:4D:5E") = false
  /\ mac_value (lit "0:1a:2b:3c:4d:5e") = mac_value (lit "00-1a-2b-3c-4d-5e")
  /\ lit "0:1A:2B:3C:4D:5E" <> lit "00:1A:2B:3C:4D:5E".
Proof. repeat split; try reflexivity. discriminate. Qed.

(** C10. Both patterns accept a group of a single hexadecimal digit, and
    normalization changes no length, so it pads nothing: the line
    ["  10.0.0.2   1-2b-3c-4d-5e-6f   dynamic"] yields the MAC
    ["1:2B:3C:4D:5E:6F"], which is not made of two-digit pairs. *)
Theorem single_digit_group_not_padded :
  (forall mac, length (normalize_mac mac) = length mac)
  /\ line_device (lit "  10.0.0.2   1-2b-3c-4d-5e-6f   dynamic")
     = Some {| dev_ip := lit "10.0.0.2"; dev_mac := lit "1:2B:3C:4D:5E:6F" |}
  /\ line_device (lit "gw (10.0.0.2) at 1:2b:3c:4d:5e:6f [ether] on eth0")
     = Some {| dev_ip := lit "10.0.0.2"; dev_mac := lit "1:2B:3C:4D:5E:6F" |}
  /\ canonical_mac (lit "1:2B:3C:4D:5E:6F") = false.
Proof.
  split; [apply normalize_mac_length|]. repeat split; reflexivity.
Qed.

(** * Further properties of the code *)

(** ** Port scan engine *)













Lemma messages_prints (ms : list message) : messages (EvPrint <$> ms) = ms.
Proof. induction ms as [|m ms IH]; simpl; [done|]. by f_equal. Qed.

Lemma messages_submits ip t (ports : list Z) :
  messages ((fun p => EvSubmit ip p t) <$> ports) = [].
Proof. induction ports as [|p ports IH]; simpl; [done|]. exact IH. Qed.

(** X4. An uninterrupted scan of a range of integers that print prints
    the banner and then one "Port p is open" line for each open port, in
    the order in which [as_completed] yielded the attempts, and nothing
    else; it returns those same ports sorted. *)
Theorem scan_ports_open_messages w host ip s e t c st :
  gethostbyname w host = Some ip ->
  1 <= c ->
  interrupt_at w = None ->
  printable s = true -> printable e = true -> printable c = true ->
  let found :=
    omap fut_result
      (as_completed w (future_of w ip t <$> py_range s (e + 1))) in
  (scan_ports w host s e t c st).1 = Ok (sorted found)
  /\ printed (scan_ports w host s e t c st).2
     = printed st ++ MsgScanning host ip s e c :: (MsgPortOpen <$> found).
Proof.
  intros Hip Hc Hint _ _ _ found.
  destruct (collect_run w
              (as_completed w (future_of w ip t <$> py_range s (e + 1)))
              0 []
              (log ((fun p => EvSubmit ip p t) <$> py_range s (e + 1))
                 (log [EvPrint (MsgScanning host ip s e c)]
                    (log [EvResolve host] st))))
    as (k & b & Hrun & Hall & _).
  destruct (Hall Hint) as [-> ->]. cbv zeta in Hrun.
  rewrite firstn_all in Hrun. cbn [app] in Hrun.
  fold found in Hrun.
  assert (Hscan : scan_ports w host s e t c st
                  = (Ok (sorted found),
                     log (EvPrint ∘ MsgPortOpen <$> found)
                       (log ((fun p => EvSubmit ip p t) <$> py_range s (e + 1))
                          (log [EvPrint (MsgScanning host ip s e c)]
                             (log [EvResolve host] st))))).
  { unfold scan_ports, print.
    rewrite bind_run, emit_run, Hip, bind_run, emit_run.
    destruct (Z.leb_spec c 0) as [Hle|_]; [lia|].
    rewrite bind_run, submit_all_run, bind_run. fold found in Hrun |- *.
    rewrite Hrun. by rewrite bind_run, ret_run, ret_run. }
  rewrite Hscan. cbn [fst snd]. split; [done|].
  rewrite !printed_log, messages_submits, app_nil_r.
  rewrite (list_fmap_compose MsgPortOpen EvPrint), messages_prints.
  rewrite <- !app_assoc. done.
Qed.

Lemma scan_ports_open_messages_witness :
  (scan_ports lab_world (lit "lab") 1 10 default_timeout 3 (initial [])).1
  = Ok [7; 9]
  /\ printed (scan_ports lab_world (lit "lab") 1 10 default_timeout 3
                (initial [])).2
     = [MsgScanning (lit "lab") (lit "10.0.0.7") 1 10 3;
        MsgPortOpen 9; MsgPortOpen 7].
Proof.
  apply (scan_ports_open_messages lab_world (lit "lab") (lit "10.0.0.7") 1 10
           default_timeout 3 (initial [])); (reflexivity || lia).
Defined.




(** ** The scan handler *)

(** An empty or blank host name ends the scan handler at once: it
    prints "No host entered.", reads no further line and scans nothing. *)
Theorem _handle_scan_no_host w lh rest n out :
  strip lh = [] ->
  _handle_scan w {| stdin := lh :: rest; reads := n; trace := out |}
  = (Ok (), {| stdin := rest; reads := n;
               trace := out ++ [EvPrompt (lit "Host to scan: ");
                                EvPrint MsgNoHostEntered] |}).
Proof.
  intros Hh. unfold _handle_scan.
  rewrite bind_run. unfold input at 1. cbn [stdin reads trace].
  rewrite Hh. unfold print. rewrite emit_run. unfold log; simpl.
  by rewrite <- app_assoc.
Qed.

Lemma _handle_scan_no_host_witness :
  _handle_scan lab_world
    {| stdin := [lit "   "; lit "1"]; reads := 0; trace := [] |}
  = (Ok (), {| stdin := [lit "1"]; reads := 0;
               trace := [] ++ [EvPrompt (lit "Host to scan: ");
                               EvPrint MsgNoHostEntered] |}).
Proof. apply _handle_scan_no_host. reflexivity. Defined.

(** X7. A port that is not an integer ends the scan handler with "Port
    numbers must be integers." and nothing is resolved or probed; when it
    is the start port that fails, the end port is not even asked for. *)
Theorem _handle_scan_not_integer w lh ls rest n out :
  strip lh <> [] ->
  (py_int (strip ls) = None ->
   _handle_scan w {| stdin := lh :: ls :: rest; reads := n; trace := out |}
   = (Ok (), {| stdin := rest; reads := n;
                trace := out ++ [EvPrompt (lit "Host to scan: ");
                                 EvPrompt (lit "Start port (e.g. 1): ");
                                 EvPrint MsgPortsMustBeIntegers] |}))
  /\ (forall le rest' s,
        rest = le :: rest' ->
        py_int (strip ls) = Some s -> py_int (strip le) = None ->
        _handle_scan w {| stdin := lh :: ls :: rest; reads := n; trace := out |}
        = (Ok (), {| stdin := rest'; reads := n;
                     trace := out ++ [EvPrompt (lit "Host to scan: ");
                                      EvPrompt (lit "Start port (e.g. 1): ");
                                      EvPrompt (lit "End port (e.g. 1024): ");
                                      EvPrint MsgPortsMustBeIntegers] |})).
Proof.
  intros Hh. split.
  - intros Hs. unfold _handle_scan.
    rewrite bind_run. unfold input at 1. cbn [stdin reads trace].
    destruct (strip lh) as [|c0 host0]; [done|].
    rewrite bind_run. unfold try_except.
    rewrite bind_run. unfold input at 1. cbn [stdin reads trace].
    rewrite bind_run. unfold int_of_input at 1. rewrite Hs.
    cbn [raise is_ValueError]. unfold print.
    rewrite bind_run, emit_run, ret_run, ret_run. unfold log; simpl.
    by rewrite <- !app_assoc.
  - intros le rest' s -> Hs He. unfold _handle_scan.
    rewrite bind_run. unfold input at 1. cbn [stdin reads trace].
    destruct (strip lh) as [|c0 host0]; [done|].
    rewrite bind_run. unfold try_except.
    rewrite bind_run. unfold input at 1. cbn [stdin reads trace].
    rewrite bind_run. unfold int_of_input at 1. rewrite Hs, ret_run.
    rewrite bind_run. unfold input at 1. cbn [stdin reads trace].
    rewrite bind_run. unfold int_of_input at 1. rewrite He.
    cbn [raise is_ValueError]. unfold print.
    rewrite bind_run, emit_run, ret_run, ret_run. unfold log; simpl.
    by rewrite <- !app_assoc.
Qed.

Lemma _handle_scan_not_integer_witness :
  _handle_scan lab_world
    {| stdin := [lit "lab"; lit "http"; lit "80"]; reads := 0; trace := [] |}
  = (Ok (), {| stdin := [lit "80"]; reads := 0;
               trace := [] ++ [EvPrompt (lit "Host to scan: ");
                               EvPrompt (lit "Start port (e.g. 1): ");
                               EvPrint MsgPortsMustBeIntegers] |})
  /\ _handle_scan lab_world
       {| stdin := [lit "lab"; replicate 4300 "0"%char ++ lit "7"; lit "9"];
          reads := 0; trace := [] |}
     = (Ok (), {| stdin := [lit "9"]; reads := 0;
                  trace := [] ++ [EvPrompt (lit "Host to scan: ");
                                  EvPrompt (lit "Start port (e.g. 1): ");
                                  EvPrint MsgPortsMustBeIntegers] |}).
Proof.
  split.
  - apply (_handle_scan_not_integer lab_world (lit "lab") (lit "http")
             [lit "80"] 0%nat []); [discriminate|reflexivity].
  - apply (_handle_scan_not_integer lab_world (lit "lab")
             (replicate 4300 "0"%char ++ lit "7") [lit "9"] 0%nat []);
      [discriminate|vm_compute; reflexivity].
Defined.

(** X8. A negative start port is turned away as an invalid range, even
    when the end port is not below it. *)
Theorem _handle_scan_negative_start w lh ls le rest n out s e :
  strip lh <> [] ->
  py_int (strip ls) = Some s -> py_int (strip le) = Some e ->
  s < 0 ->
  _handle_scan w {| stdin := lh :: ls :: le :: rest; reads := n; trace := out |}
  = (Ok (), {| stdin := rest; reads := n;
               trace := out ++ [EvPrompt (lit "Host to scan: ");
                                EvPrompt (lit "Start port (e.g. 1): ");
                                EvPrompt (lit "End port (e.g. 1024): ");
                                EvPrint MsgInvalidPortRange] |}).
Proof.
  intros Hh Hs He Hneg. unfold _handle_scan.
  rewrite bind_run. unfold input at 1. cbn [stdin reads trace].
  destruct (strip lh) as [|c0 host0]; [done|].
  rewrite bind_run. unfold try_except.
  rewrite bind_run. unfold input at 1. cbn [stdin reads trace].
  rewrite bind_run. unfold int_of_input at 1. rewrite Hs, ret_run.
  rewrite bind_run. unfold input at 1. cbn [stdin reads trace].
  rewrite bind_run. unfold int_of_input at 1. rewrite He, ret_run.
  replace (s <? 0) with true by (symmetry; apply Z.ltb_lt; lia).
  cbn [orb]. unfold print.
  rewrite bind_run, emit_run, ret_run, ret_run. unfold log; simpl.
  by rewrite <- !app_assoc.
Qed.

Lemma _handle_scan_negative_start_witness :
  _handle_scan lab_world
    {| stdin := [lit "lab"; lit "-5"; lit "10"]; reads := 0; trace := [] |}
  = (Ok (), {| stdin := []; reads := 0;
               trace := [] ++ [EvPrompt (lit "Host to scan: ");
                               EvPrompt (lit "Start port (e.g. 1): ");
                               EvPrompt (lit "End port (e.g. 1024): ");
                               EvPrint MsgInvalidPortRange] |}).
Proof.
  apply (_handle_scan_negative_start lab_world (lit "lab") (lit "-5")
           (lit "10") [] 0%nat [] (-5) 10);
    [discriminate|reflexivity|reflexivity|lia].
Defined.

(** X9. For a host name and a range [0 <= start <= end] the handler runs
    [scan_ports] on the stripped host with a timeout of half a second
    and 100 workers, then prints the open ports when there are some and
    "No open ports found" otherwise; an exception of the scan passes
    through. *)
Theorem _handle_scan_valid w lh ls le rest n out s e :
  strip lh <> [] ->
  py_int (strip ls) = Some s -> py_int (strip le) = Some e ->
  0 <= s <= e ->
  _handle_scan w {| stdin := lh :: ls :: le :: rest; reads := n; trace := out |}
  = match scan_ports w (strip lh) s e (1 # 2) 100
            {| stdin := rest; reads := n;
               trace := out ++ [EvPrompt (lit "Host to scan: ");
                                EvPrompt (lit "Start port (e.g. 1): ");
                                EvPrompt (lit "End port (e.g. 1024): ")] |}
    with
    | (Ok [], st') => (Ok (), log [EvPrint (MsgNoOpenPorts (strip lh) s e)] st')
    | (Ok ports, st') => (Ok (), log [EvPrint (MsgOpenPorts (strip lh) ports)] st')
    | (Raise x, st') => (Raise x, st')
    end.
Proof.
  intros Hh Hs He Hse. unfold _handle_scan.
  rewrite bind_run. unfold input at 1. cbn [stdin reads trace].
  destruct (strip lh) as [|c0 host0] eqn:Hhost; [done|].
  rewrite bind_run. unfold try_except.
  rewrite bind_run. unfold input at 1. cbn [stdin reads trace].
  rewrite bind_run. unfold int_of_input at 1. rewrite Hs, ret_run.
  rewrite bind_run. unfold input at 1. cbn [stdin reads trace].
  rewrite bind_run. unfold int_of_input at 1. rewrite He, ret_run.
  replace (s <? 0) with false by (symmetry; apply Z.ltb_ge; lia).
  replace (e <? s) with false by (symmetry; apply Z.ltb_ge; lia).
  cbn [orb]. rewrite ret_run, bind_run.
  unfold default_timeout, default_concurrency. rewrite <- !app_assoc.
  cbn [app].
  destruct (scan_ports w (c0 :: host0) s e (1 # 2) 100 _) as [[ports|x] st'];
    [|done].
  by destruct ports.
Qed.

Lemma _handle_scan_valid_witness :
  _handle_scan lab_world
    {| stdin := [lit " lab "; lit "1"; lit "10"]; reads := 0; trace := [] |}
  = match scan_ports lab_world (strip (lit " lab ")) 1 10 (1 # 2) 100
            {| stdin := []; reads := 0;
               trace := [] ++ [EvPrompt (lit "Host to scan: ");
                               EvPrompt (lit "Start port (e.g. 1): ");
                               EvPrompt (lit "End port (e.g. 1024): ")] |}
    with
    | (Ok [], st') =>
        (Ok (), log [EvPrint (MsgNoOpenPorts (strip (lit " lab ")) 1 10)] st')
    | (Ok ports, st') =>
        (Ok (), log [EvPrint (MsgOpenPorts (strip (lit " lab ")) ports)] st')
    | (Raise x, st') => (Raise x, st')
    end.
Proof.
  apply (_handle_scan_valid lab_world (lit " lab ") (lit "1") (lit "10")
           [] 0%nat [] 1 10);
    [discriminate|reflexivity|reflexivity|lia].
Defined.

(** X10. Through the handler a host that does not resolve is reported
    twice: by the resolution error of the scan and then, the scan having
    returned the empty list, as "No open ports found". *)
Theorem _handle_scan_unresolved w lh ls le rest n out s e :
  strip lh <> [] ->
  py_int (strip ls) = Some s -> py_int (strip le) = Some e ->
  0 <= s <= e ->
  gethostbyname w (strip lh) = None ->
  _handle_scan w {| stdin := lh :: ls :: le :: rest; reads := n; trace := out |}
  = (Ok (), {| stdin := rest; reads := n;
               trace := out ++ [EvPrompt (lit "Host to scan: ");
                                EvPrompt (lit "Start port (e.g. 1): ");
                                EvPrompt (lit "End port (e.g. 1024): ");
                                EvResolve (strip lh);
                                EvPrint (MsgCouldNotResolve (strip lh));
                                EvPrint (MsgNoOpenPorts (strip lh) s e)] |}).
Proof.
  intros Hh Hs He Hse Hip. unfold _handle_scan.
  rewrite bind_run. unfold input at 1. cbn [stdin reads trace].
  destruct (strip lh) as [|c0 host0] eqn:Hhost; [done|].
  rewrite bind_run. unfold try_except.
  rewrite bind_run. unfold input at 1. cbn [stdin reads trace].
  rewrite bind_run. unfold int_of_input at 1. rewrite Hs, ret_run.
  rewrite bind_run. unfold input at 1. cbn [stdin reads trace].
  rewrite bind_run. unfold int_of_input at 1. rewrite He, ret_run.
  replace (s <? 0) with false by (symmetry; apply Z.ltb_ge; lia).
  replace (e <? s) with false by (symmetry; apply Z.ltb_ge; lia).
  cbn [orb]. rewrite ret_run, bind_run.
  rewrite (scan_ports_unresolved_run _ _ _ _ _ _ _ Hip).
  unfold print. rewrite emit_run.
  unfold log; simpl. by rewrite <- !app_assoc.
Qed.

Lemma _handle_scan_unresolved_witness :
  _handle_scan lab_world
    {| stdin := [lit "nowhere"; lit "1"; lit "10"]; reads := 0; trace := [] |}
  = (Ok (), {| stdin := []; reads := 0;
               trace := [] ++ [EvPrompt (lit "Host to scan: ");
                               EvPrompt (lit "Start port (e.g. 1): ");
                               EvPrompt (lit "End port (e.g. 1024): ");
                               EvResolve (strip (lit "nowhere"));
                               EvPrint (MsgCouldNotResolve (strip (lit "nowhere")));
                               EvPrint (MsgNoOpenPorts (strip (lit "nowhere")) 1 10)] |}).
Proof.
  apply (_handle_scan_unresolved lab_world (lit "nowhere") (lit "1")
           (lit "10") [] 0%nat [] 1 10);
    [discriminate|reflexivity|reflexivity|lia|reflexivity].
Defined.

(** ** Connectivity prober *)


(** X12. For a count that prints: an exception that launching the ping
    command raises, other than [CalledProcessError], [TimeoutExpired] and
    [FileNotFoundError], passes through the probe unchanged; when the
    command runs to an exit status the probe returns whether that status
    is 0, and when it times out the probe returns false, without raising. *)
Theorem ping_host_raises w host timeout count st :
  printable count = true ->
  (forall x,
     exec w (ping_cmd w host count) (Some timeout) = LaunchError x ->
     ping_handled x = false ->
     (ping_host w host timeout count st).1 = Raise x)
  /\ (forall rc out,
       exec w (ping_cmd w host count) (Some timeout) = Exited rc out ->
       (ping_host w host timeout count st).1 = Ok (rc =? 0))
  /\ (exec w (ping_cmd w host count) (Some timeout) = Expired ->
      (ping_host w host timeout count st).1 = Ok false).
Proof.
  intros _. rewrite ping_host_run. cbv zeta. split; [|split].
  - intros x Hx Hh. rewrite Hx. by destruct x.
  - intros rc out Hx. by rewrite Hx.
  - intros Hx. by rewrite Hx.
Qed.

Lemma ping_host_raises_witness :
  (ping_host arp_denied_world (lit "lab") 3 1 (initial [])).1
  = Raise PermissionError.
Proof.
  apply (ping_host_raises arp_denied_world (lit "lab") 3 1 (initial []));
    reflexivity.
Defined.


(** ** Traffic sampler *)

(** X14. With psutil, a duration that [time.sleep] refuses makes the
    sampler raise after its first counter reading, whatever was read, so
    that it neither sleeps nor reads the counters a second time, and
    returns nothing: it raises [ValueError] for a negative duration down to
    -9223372036 seconds, and [OverflowError] for a duration of 9223372037
    seconds or more, or of -9223372037 seconds or less. *)
Theorem get_network_traffic_refused_duration w duration st :
  has_psutil w = true ->
  ((-9223372036 <= duration)%Q -> (duration < 0)%Q ->
   get_network_traffic w duration st
   = (Raise ValueError,
      {| stdin := stdin st; reads := S (reads st);
         trace := trace st ++ [EvCounters] |}))
  /\ ((9223372037 <= duration)%Q \/ (duration <= -9223372037)%Q ->
      get_network_traffic w duration st
      = (Raise OverflowError,
         {| stdin := stdin st; reads := S (reads st);
            trace := trace st ++ [EvCounters] |})).
Proof.
  intros Hps. unfold get_network_traffic. rewrite Hps. cbn [negb].
  split.
  - intros Hmin Hneg.
    rewrite bind_run, read_counters_run, bind_run.
    by rewrite (sleep_negative _ _ (sleep_limit_whole_neg _ Hmin) Hneg).
  - intros Hout.
    rewrite bind_run, read_counters_run.
    rewrite bind_run, sleep_overflow; [done|].
    destruct Hout as [Hge|Hle]; [left|right].
    + eapply Qle_trans; [|exact Hge]. discriminate.
    + eapply Qle_trans; [exact Hle|]. discriminate.
Qed.

Lemma get_network_traffic_refused_duration_witness :
  get_network_traffic bare_world (-1) (initial [])
  = (Raise ValueError,
     {| stdin := stdin (initial []); reads := S (reads (initial []));
        trace := trace (initial []) ++ [EvCounters] |})
  /\ get_network_traffic bare_world 10000000000 (initial [])
     = (Raise OverflowError,
        {| stdin := stdin (initial []); reads := S (reads (initial []));
           trace := trace (initial []) ++ [EvCounters] |}).
Proof.
  split.
  - apply (get_network_traffic_refused_duration bare_world (-1) (initial []));
      [reflexivity|discriminate|reflexivity].
  - apply (get_network_traffic_refused_duration bare_world 10000000000
             (initial [])); [reflexivity|].
    left. discriminate.
Defined.



(** ** Neighbor discovery: the process *)

(** Without an [arp] command on the path, discovery prints that the
    command was not found and launches no process. *)
Theorem discover_devices_no_arp w st :
  which w (lit "arp") = None ->
  discover_devices w st = (Ok (), log [EvPrint MsgArpNotFound] st).
Proof. intros Hwhich. unfold discover_devices. by rewrite Hwhich. Qed.

Lemma discover_devices_no_arp_witness :
  discover_devices lab_world (initial [])
  = (Ok (), log [EvPrint MsgArpNotFound] (initial [])).
Proof. apply discover_devices_no_arp. reflexivity. Defined.

Lemma discover_devices_arp_fails_run w arp_cmd e st :
  which w (lit "arp") = Some arp_cmd ->
  exec w [arp_cmd; lit "-a"] None = LaunchError e ->
  discover_devices w st
  = if is_Exception e
    then (Ok (), log [EvExec [arp_cmd; lit "-a"] None; EvPrint MsgArpError] st)
    else (Raise e, log [EvExec [arp_cmd; lit "-a"] None] st).
Proof.
  intros Hwhich Hexec. unfold discover_devices, try_except, subprocess_run.
  rewrite Hwhich, bind_run, bind_run, emit_run, Hexec. cbn [raise].
  destruct (is_Exception e); [|done].
  unfold print. by rewrite emit_run, log_log.
Qed.

(** X17. When launching [arp -a] raises, discovery does not fail with
    it: any [Exception] is reported as "Error running arp" and the method
    returns normally; only a [KeyboardInterrupt] passes through. *)
Theorem discover_devices_arp_fails w arp_cmd e st :
  which w (lit "arp") = Some arp_cmd ->
  exec w [arp_cmd; lit "-a"] None = LaunchError e ->
  discover_devices w st
  = if is_Exception e
    then (Ok (), log [EvExec [arp_cmd; lit "-a"] None; EvPrint MsgArpError] st)
    else (Raise e, log [EvExec [arp_cmd; lit "-a"] None] st).
Proof.
  intros Hwhich Hexec. unfold discover_devices, try_except, subprocess_run.
  rewrite Hwhich, bind_run, bind_run, emit_run, Hexec. cbn [raise].
  destruct (is_Exception e); [|done].
  unfold print. by rewrite emit_run, log_log.
Qed.

Lemma discover_devices_arp_fails_witness :
  discover_devices arp_denied_world (initial [])
  = if is_Exception PermissionError
    then (Ok (), log [EvExec [lit "/usr/sbin/arp"; lit "-a"] None;
                      EvPrint MsgArpError] (initial []))
    else (Raise PermissionError,
          log [EvExec [lit "/usr/sbin/arp"; lit "-a"] None] (initial [])).
Proof.
  apply (discover_devices_arp_fails arp_denied_world (lit "/usr/sbin/arp")
           PermissionError (initial [])); reflexivity.
Defined.

(** ** Neighbor discovery: what the patterns recognize *)

Lemma cls_first p c s g k : p c = true -> cls p (c :: s) g k = k s g.
Proof. intros Hc. unfold cls. by rewrite Hc. Qed.

(** A greedy star that consumed a maximal run need not backtrack when
    its continuation succeeds. *)
Lemma star_first p pre s g k r :
  forallb p pre = true -> stops p s = true -> k s g = Some r ->
  star p (pre ++ s) g k = Some r.
Proof.
  intros Hpre Hs Hk. induction pre as [|c pre IH].
  - cbn [app]. destruct s as [|c s]; [exact Hk|].
    cbn [stops] in Hs. apply negb_true_iff in Hs.
    cbn [star]. rewrite Hs. exact Hk.
  - cbn [forallb] in Hpre. apply andb_true_iff in Hpre as [Hc Hpre].
    cbn [app star]. by rewrite Hc, (IH Hpre).
Qed.

Lemma plus_first p c pre s g k r :
  p c = true -> forallb p pre = true -> stops p s = true ->
  k s g = Some r ->
  plus p (c :: pre ++ s) g k = Some r.
Proof.
  intros Hc Hpre Hs Hk. unfold plus, seq.
  rewrite cls_first by done. by apply star_first.
Qed.

Lemma one_or_two_first p d s g k r :
  (1 <= length d <= 2)%nat -> forallb p d = true ->
  (length d = 2%nat \/ stops p s = true) ->
  k s g = Some r ->
  one_or_two p (d ++ s) g k = Some r.
Proof.
  intros Hlen Hd Hstop Hk. unfold one_or_two, alt, seq.
  destruct d as [|a [|b [|]]]; simpl in Hlen; try lia; simpl in Hd.
  - apply andb_true_iff in Hd as [Ha _].
    destruct Hstop as [Hlen2|Hs]; [simpl in Hlen2; lia|].
    cbn [app]. rewrite cls_first by done.
    destruct s as [|c s]; simpl.
    + rewrite Ha. exact Hk.
    + simpl in Hs. apply negb_true_iff in Hs. rewrite Hs, Ha. exact Hk.
  - apply andb_true_iff in Hd as [Ha [Hb _]%andb_true_iff].
    cbn [app]. rewrite !cls_first by done. by rewrite Hk.
Qed.

Lemma group_first n m pre s g k r :
  (forall k' r', k' s g = Some r' -> m (pre ++ s) g k' = Some r') ->
  k s (set_group n pre g) = Some r ->
  group n m (pre ++ s) g k = Some r.
Proof.
  intros Hm Hk. unfold group. apply Hm.
  rewrite length_app.
  replace (length pre + length s - length s)%nat with (length pre) by lia.
  by rewrite take_app_length.
Qed.

Lemma hex_group_spec d :
  hex_group d = true <-> (1 <= length d <= 2)%nat /\ forallb is_hex d = true.
Proof.
  unfold hex_group. rewrite !andb_true_iff, !Nat.leb_le. tauto.
Qed.

(** The separated groups of a MAC are consumed one after the other. *)
Lemma mac_parts_first (sep : ascii -> bool) parts :
  (forall c, sep c = true -> is_hex c = false) ->
  forallb (fun part => hex_group part.1 && sep part.2) parts = true ->
  forall s g k r,
    k s g = Some r ->
    times (length parts) (one_or_two is_hex ⋅ cls sep)
      (concat ((fun part => part.1 ++ [part.2]) <$> parts) ++ s) g k
    = Some r.
Proof.
  intros Hsep. induction parts as [|[d c] parts IH]; intros Hparts s g k r Hk.
  - exact Hk.
  - cbn [forallb fst snd] in Hparts.
    apply andb_true_iff in Hparts as [[Hd Hc]%andb_true_iff Hparts].
    apply hex_group_spec in Hd as [Hlen Hd].
    cbn [length times fmap list_fmap concat fst snd]. unfold seq at 1 2.
    rewrite <- !app_assoc. apply one_or_two_first; [done|done| |].
    + right. simpl. by rewrite (Hsep c Hc).
    + cbn [app]. rewrite cls_first by done. by apply IH.
Qed.

Lemma mac_first (sep : ascii -> bool) parts last s g k r :
  (forall c, sep c = true -> is_hex c = false) ->
  length parts = 5%nat ->
  forallb (fun part => hex_group part.1 && sep part.2) parts = true ->
  hex_group last = true ->
  (length last =? 2)%nat || stops is_hex s = true ->
  k s g = Some r ->
  mac_pattern sep (mac_of parts last ++ s) g k = Some r.
Proof.
  intros Hsep Hlen Hparts Hlast Hend Hk.
  unfold mac_pattern, mac_of. unfold seq at 1. rewrite <- Hlen, <- app_assoc.
  apply mac_parts_first; [done|done|].
  apply hex_group_spec in Hlast as [Hl Hlast].
  apply one_or_two_first; [done|done| |done].
  apply orb_true_iff in Hend as [Hend|Hend]; [left|by right].
  by apply Nat.eqb_eq.
Qed.

Lemma ip_char_not_space c : ip_char c = true -> is_space c = false.
Proof. all_chars c. Qed.

Lemma hex_not_space c : is_hex c = true -> is_space c = false.
Proof. all_chars c. Qed.

Lemma sep_not_hex c : colon_or_hyphen c = true -> is_hex c = false.
Proof. all_chars c. Qed.

Lemma hyphen_not_hex c : hyphen c = true -> is_hex c = false.
Proof. all_chars c. Qed.

Lemma hyphen_is_sep c : hyphen c = true -> colon_or_hyphen c = true.
Proof. all_chars c. Qed.

Lemma ip_char_not_paren c : ip_char c = true -> char_eqb "(" c = false.
Proof. all_chars c. Qed.

Lemma space_not_paren c : is_space c = true -> char_eqb "(" c = false.
Proof. all_chars c. Qed.

Lemma mac_char_not_paren c :
  is_hex c || colon_or_hyphen c = true -> char_eqb "(" c = false.
Proof. all_chars c. Qed.

Lemma no_paren_class (p : ascii -> bool) (l : str) :
  (forall c, p c = true -> char_eqb "(" c = false) ->
  forallb p l = true -> no_paren l = true.
Proof.
  intros Hp Hl. unfold no_paren. apply forallb_forall. intros c Hc.
  rewrite forallb_forall in Hl. by rewrite (Hp c (Hl c Hc)).
Qed.

Lemma no_paren_app a b : no_paren (a ++ b) = no_paren a && no_paren b.
Proof. apply forallb_app. Qed.

(** The characters of a well-formed MAC text. *)
Lemma mac_of_chars (sep : ascii -> bool) parts last :
  (forall c, sep c = true -> colon_or_hyphen c = true) ->
  forallb (fun part => hex_group part.1 && sep part.2) parts = true ->
  hex_group last = true ->
  forallb (fun c => is_hex c || colon_or_hyphen c) (mac_of parts last) = true.
Proof.
  intros Hsep Hparts Hlast. unfold mac_of.
  apply hex_group_spec in Hlast as [_ Hlast].
  induction parts as [|[d c] parts IH].
  - simpl. apply forallb_forall. intros x Hx.
    rewrite forallb_forall in Hlast. by rewrite (Hlast x Hx).
  - cbn [forallb fst snd] in Hparts.
    apply andb_true_iff in Hparts as [[Hd Hc]%andb_true_iff Hparts].
    apply hex_group_spec in Hd as [_ Hd].
    cbn [fmap list_fmap concat fst snd]. rewrite <- !app_assoc.
    rewrite forallb_app. apply andb_true_iff. split.
    + apply forallb_forall. intros x Hx.
      rewrite forallb_forall in Hd. by rewrite (Hd x Hx).
    + cbn [app forallb]. rewrite (Hsep c Hc), orb_true_r. by apply IH.
Qed.

(** A well-formed MAC text starts with a hex digit. *)
Lemma mac_of_head (sep : ascii -> bool) parts last s :
  forallb (fun part => hex_group part.1 && sep part.2) parts = true ->
  hex_group last = true ->
  exists h t, mac_of parts last ++ s = h :: t /\ is_hex h = true.
Proof.
  intros Hparts Hlast. unfold mac_of.
  destruct parts as [|[d c] parts].
  - apply hex_group_spec in Hlast as [Hlen Hlast].
    destruct last as [|h last]; simpl in Hlen; [lia|].
    simpl in Hlast. apply andb_true_iff in Hlast as [Hh _].
    exists h, (last ++ s). auto.
  - cbn [forallb fst snd] in Hparts.
    apply andb_true_iff in Hparts as [[Hd _]%andb_true_iff _].
    apply hex_group_spec in Hd as [Hlen Hd].
    destruct d as [|h d]; simpl in Hlen; [lia|].
    simpl in Hd. apply andb_true_iff in Hd as [Hh _].
    cbn [fmap list_fmap concat fst snd]. rewrite <- !app_assoc.
    eexists h, _. split; [reflexivity|done].
Qed.

(** The trailing [.*] of a pattern always succeeds. *)
Lemma star_final p s g : star p s g (fun _ g' => Some g') = Some g.
Proof.
  induction s as [|c s IH]; cbn [star]; [done|].
  destruct (p c); [by rewrite IH|done].
Qed.

(** A match of the Linux/macOS pattern needs an opening parenthesis. *)
Lemma linux_match_has_paren line r :
  re_match linux_mac_pattern line = Some r -> no_paren line = false.
Proof.
  unfold re_match, linux_mac_pattern, seq. intros H.
  consumed H (accepts_star any_char) junk Hjunk.
  consumed H (accepts_cls (char_eqb "(")) c1 Hc1.
  destruct Hc1 as (c & -> & Hc).
  rewrite !no_paren_app. cbn [no_paren forallb]. rewrite Hc. cbn [negb andb].
  apply andb_false_r.
Qed.

(** What the patterns make of a line of the Windows shape. *)
Lemma windows_shape_matched (sp0 ip sp1 : str)
    (parts : list (str * ascii)) (last rest : str) :
  forallb is_space sp0 = true ->
  ip <> [] -> forallb ip_char ip = true ->
  sp1 <> [] -> forallb is_space sp1 = true ->
  length parts = 5%nat ->
  forallb (fun part => hex_group part.1 && hyphen part.2) parts = true ->
  hex_group last = true ->
  (length last =? 2)%nat || stops is_hex rest = true ->
  no_paren rest = true ->
  match_line (sp0 ++ ip ++ sp1 ++ mac_of parts last ++ rest)
  = Some {| grp_ip := Some ip; grp_mac := Some (mac_of parts last) |}.
Proof.
  intros Hsp0 Hip0 Hip Hsp10 Hsp1 Hlen Hparts Hlast Hend Hrest.
  assert (Hmac : forallb (fun c => is_hex c || colon_or_hyphen c)
                   (mac_of parts last) = true).
  { by apply (mac_of_chars hyphen); [apply hyphen_is_sep|..]. }
  destruct (mac_of_head hyphen parts last rest Hparts Hlast)
    as (h & t & Hhead & Hh).
  unfold match_line.
  destruct (re_match linux_mac_pattern _) as [r|] eqn:Hlinux.
  { apply linux_match_has_paren in Hlinux.
    rewrite !no_paren_app, Hrest in Hlinux.
    rewrite (no_paren_class is_space sp0 space_not_paren Hsp0) in Hlinux.
    rewrite (no_paren_class ip_char ip ip_char_not_paren Hip) in Hlinux.
    rewrite (no_paren_class is_space sp1 space_not_paren Hsp1) in Hlinux.
    rewrite (no_paren_class _ _ mac_char_not_paren Hmac) in Hlinux.
    discriminate. }
  destruct ip as [|i ip]; [done|]. destruct sp1 as [|b sp1]; [done|].
  cbn [forallb] in Hip, Hsp1.
  apply andb_true_iff in Hip as [Hi Hip].
  apply andb_true_iff in Hsp1 as [Hb Hsp1].
  unfold re_match, windows_pattern, seq.
  apply star_first; [done|cbn; by rewrite (ip_char_not_space i Hi)|].
  apply group_first.
  { intros k' r' Hk'. cbn [app]. apply plus_first; try done.
    cbn. apply negb_true_iff.
    destruct (ip_char b) eqn:Hipb; [|done].
    by rewrite (ip_char_not_space b Hipb) in Hb. }
  cbn [app]. apply plus_first; [done|done| |].
  { rewrite Hhead. cbn. by rewrite (hex_not_space h Hh). }
  apply group_first.
  { intros k' r' Hk'.
    by apply mac_first; [apply hyphen_not_hex|..]. }
  apply star_final.
Qed.

(** X18. A line of the Windows shape is recognized: blanks, a run of
    digits and dots, blanks, six groups of one or two hex digits joined
    by hyphens, then anything without an opening parenthesis.  It yields
    the run as the ip and the normalized groups as the MAC (the last
    group, when it has one digit, must not be followed by a hex digit,
    which the pattern would take as its second). *)
Theorem windows_line_recognized (sp0 ip sp1 : str)
    (parts : list (str * ascii)) (last rest : str) :
  forallb is_space sp0 = true ->
  ip <> [] -> forallb ip_char ip = true ->
  sp1 <> [] -> forallb is_space sp1 = true ->
  length parts = 5%nat ->
  forallb (fun part => hex_group part.1 && hyphen part.2) parts = true ->
  hex_group last = true ->
  (length last =? 2)%nat || stops is_hex rest = true ->
  no_paren rest = true ->
  line_device (sp0 ++ ip ++ sp1 ++ mac_of parts last ++ rest)
  = Some {| dev_ip := ip; dev_mac := normalize_mac (mac_of parts last) |}.
Proof.
  intros Hsp0 Hip0 Hip Hsp10 Hsp1 Hlen Hparts Hlast Hend Hrest.
  unfold line_device.
  rewrite (windows_shape_matched sp0 ip sp1 parts last rest) by assumption.
  reflexivity.
Qed.

Lemma windows_line_recognized_witness :
  line_device (lit "  " ++ lit "192.168.1.1" ++ lit "   "
               ++ mac_of [(lit "0", "-"%char); (lit "1a", "-"%char);
                          (lit "2B", "-"%char); (lit "3c", "-"%char);
                          (lit "4d", "-"%char)] (lit "5e")
               ++ lit "   dynamic")
  = Some {| dev_ip := lit "192.168.1.1";
            dev_mac := normalize_mac
                         (mac_of [(lit "0", "-"%char); (lit "1a", "-"%char);
                                  (lit "2B", "-"%char); (lit "3c", "-"%char);
                                  (lit "4d", "-"%char)] (lit "5e")) |}.
Proof.
  apply windows_line_recognized; try reflexivity; discriminate.
Defined.

Lemma chr_first c s g k : chr c (c :: s) g k = k s g.
Proof. unfold chr. apply cls_first, char_eqb_refl. Qed.

(** When every longer run makes the continuation fail, a greedy star
    ends where the continuation succeeds. *)
Lemma star_all_fail p s g k :
  (forall s1 s2, s = s1 ++ s2 -> s1 <> [] -> k s2 g = None) ->
  star p s g k = k s g.
Proof.
  induction s as [|c s IH]; intros Hfail; cbn [star]; [done|].
  destruct (p c); [|done].
  rewrite IH.
  - by rewrite (Hfail [c] s).
  - intros s1 s2 -> Hs1. by apply (Hfail (c :: s1) s2).
Qed.

Lemma star_last p pre s g k r :
  forallb p pre = true ->
  k s g = Some r ->
  (forall s1 s2, s = s1 ++ s2 -> s1 <> [] -> k s2 g = None) ->
  star p (pre ++ s) g k = Some r.
Proof.
  intros Hpre Hk Hfail. induction pre as [|c pre IH].
  - cbn [app]. by rewrite star_all_fail.
  - cbn [forallb] in Hpre. apply andb_true_iff in Hpre as [Hc Hpre].
    cbn [app star]. by rewrite Hc, (IH Hpre).
Qed.

Lemma no_paren_stops s : no_paren s = true -> stops (char_eqb "(") s = true.
Proof. destruct s as [|c s]; [done|]. by intros [Hc _]%andb_true_iff. Qed.

(** What the patterns make of a line of the Linux/macOS shape. *)
Lemma linux_shape_matched (junk ip sp1 sp2 : str)
    (parts : list (str * ascii)) (last rest : str) :
  forallb any_char junk = true ->
  ip <> [] -> forallb ip_char ip = true ->
  sp1 <> [] -> forallb is_space sp1 = true ->
  sp2 <> [] -> forallb is_space sp2 = true ->
  length parts = 5%nat ->
  forallb (fun part => hex_group part.1 && colon_or_hyphen part.2) parts
  = true ->
  hex_group last = true ->
  (length last =? 2)%nat || stops is_hex rest = true ->
  no_paren rest = true ->
  re_match linux_mac_pattern
    (junk ++ "("%char :: ip ++ ")"%char :: sp1
     ++ "a"%char :: "t"%char :: sp2 ++ mac_of parts last ++ rest)
  = Some {| grp_ip := Some ip; grp_mac := Some (mac_of parts last) |}.
Proof.
  intros Hjunk Hip0 Hip Hsp10 Hsp1 Hsp20 Hsp2 Hlen Hparts Hlast Hend Hrest.
  assert (Hmac : forallb (fun c => is_hex c || colon_or_hyphen c)
                   (mac_of parts last) = true).
  { by apply (mac_of_chars colon_or_hyphen). }
  destruct (mac_of_head colon_or_hyphen parts last rest Hparts Hlast)
    as (h & t & Hhead & Hh).
  assert (Hafter : no_paren (ip ++ ")"%char :: sp1 ++ "a"%char :: "t"%char
                             :: sp2 ++ mac_of parts last ++ rest) = true).
  { rewrite no_paren_app.
    rewrite (no_paren_class ip_char ip ip_char_not_paren Hip).
    cbn [no_paren forallb andb]. fold (no_paren (sp1 ++ "a"%char :: "t"%char
      :: sp2 ++ mac_of parts last ++ rest)).
    rewrite no_paren_app.
    rewrite (no_paren_class is_space sp1 space_not_paren Hsp1).
    cbn [no_paren forallb andb]. fold (no_paren (sp2 ++ mac_of parts last ++ rest)).
    rewrite !no_paren_app, Hrest.
    rewrite (no_paren_class is_space sp2 space_not_paren Hsp2).
    by rewrite (no_paren_class _ _ mac_char_not_paren Hmac). }
  destruct ip as [|i ip]; [done|]. destruct sp1 as [|b1 sp1]; [done|].
  destruct sp2 as [|b2 sp2]; [done|].
  cbn [forallb] in Hip, Hsp1, Hsp2.
  apply andb_true_iff in Hip as [Hi Hip].
  apply andb_true_iff in Hsp1 as [Hb1 Hsp1].
  apply andb_true_iff in Hsp2 as [Hb2 Hsp2].
  unfold re_match, linux_mac_pattern, seq.
  apply star_last; [done| |].
  - cbv beta. rewrite chr_first.
    apply group_first.
    { intros k' r' Hk'. cbn [app]. by apply plus_first. }
    rewrite chr_first.
    cbn [app]. apply plus_first; [done|done|done|].
    rewrite !chr_first.
    cbn [app]. apply plus_first; [done|done| |].
    { rewrite Hhead. cbn. by rewrite (hex_not_space h Hh). }
    apply group_first.
    { intros k' r' Hk'. by apply mac_first; [apply sep_not_hex|..]. }
    apply star_final.
  - intros s1 s2 Hs Hs1. destruct s1 as [|c s1]; [done|].
    injection Hs as _ Hs. cbn [app] in Hafter, Hs.
    rewrite Hs, no_paren_app in Hafter.
    apply andb_true_iff in Hafter as [_ Hs2].
    destruct s2 as [|c2 s2]; [done|].
    cbn [no_paren forallb] in Hs2.
    apply andb_true_iff in Hs2 as [Hc2 _]. apply negb_true_iff in Hc2.
    unfold chr, cls. by rewrite Hc2.
Qed.

(** X19. A line of the Linux/macOS shape is recognized: any text, then
    an address in parentheses, [at] between blanks, six groups of one or
    two hex digits joined by colons or hyphens, then anything without an
    opening parenthesis.  It yields the text between the parentheses as
    the ip and the normalized groups as the MAC. *)
Theorem linux_line_recognized (junk ip sp1 sp2 : str)
    (parts : list (str * ascii)) (last rest : str) :
  forallb any_char junk = true ->
  ip <> [] -> forallb ip_char ip = true ->
  sp1 <> [] -> forallb is_space sp1 = true ->
  sp2 <> [] -> forallb is_space sp2 = true ->
  length parts = 5%nat ->
  forallb (fun part => hex_group part.1 && colon_or_hyphen part.2) parts
  = true ->
  hex_group last = true ->
  (length last =? 2)%nat || stops is_hex rest = true ->
  no_paren rest = true ->
  line_device (junk ++ "("%char :: ip ++ ")"%char :: sp1
               ++ "a"%char :: "t"%char :: sp2 ++ mac_of parts last ++ rest)
  = Some {| dev_ip := ip; dev_mac := normalize_mac (mac_of parts last) |}.
Proof.
  intros Hjunk Hip0 Hip Hsp10 Hsp1 Hsp20 Hsp2 Hlen Hparts Hlast Hend Hrest.
  unfold line_device, match_line.
  rewrite (linux_shape_matched junk ip sp1 sp2 parts last rest)
    by assumption.
  reflexivity.
Qed.

Lemma linux_line_recognized_witness :
  line_device (lit "? (old) gw " ++ "("%char :: lit "10.0.0.1"
               ++ ")"%char :: lit " " ++ "a"%char :: "t"%char :: lit " "
               ++ mac_of [(lit "0", ":"%char); (lit "1a", ":"%char);
                          (lit "2b", ":"%char); (lit "3c", ":"%char);
                          (lit "4d", ":"%char)] (lit "5e")
               ++ lit " on en0 ifscope [ethernet]")
  = Some {| dev_ip := lit "10.0.0.1";
            dev_mac := normalize_mac
                         (mac_of [(lit "0", ":"%char); (lit "1a", ":"%char);
                                  (lit "2b", ":"%char); (lit "3c", ":"%char);
                                  (lit "4d", ":"%char)] (lit "5e")) |}.
Proof.
  apply linux_line_recognized; try reflexivity; discriminate.
Defined.

Lemma length_nonempty (l : str) : (1 <=? length l)%nat = true -> l <> [].
Proof. by destruct l. Qed.

Lemma windows_shape_device sp0 ip sp1 parts last rest :
  windows_shape sp0 ip sp1 parts last rest = true ->
  line_device (windows_line sp0 ip sp1 parts last rest)
  = Some {| dev_ip := ip; dev_mac := normalize_mac (mac_of parts last) |}.
Proof.
  unfold windows_shape. rewrite !andb_true_iff.
  intros [[[[[[[[[Hsp0 Hip0] Hip] Hsp10] Hsp1] Hlen] Hparts] Hlast] Hend] Hrest].
  unfold line_device, windows_line.
  rewrite (windows_shape_matched sp0 ip sp1 parts last rest);
    auto using length_nonempty.
  by apply Nat.eqb_eq.
Qed.

Lemma linux_shape_device junk ip sp1 sp2 parts last rest :
  linux_shape junk ip sp1 sp2 parts last rest = true ->
  line_device (linux_line junk ip sp1 sp2 parts last rest)
  = Some {| dev_ip := ip; dev_mac := normalize_mac (mac_of parts last) |}.
Proof.
  unfold linux_shape. rewrite !andb_true_iff.
  intros [[[[[[[[[[[Hjunk Hip0] Hip] Hsp10] Hsp1] Hsp20] Hsp2] Hlen] Hparts]
                Hlast] Hend] Hrest].
  unfold line_device, match_line, linux_line.
  rewrite (linux_shape_matched junk ip sp1 sp2 parts last rest);
    auto using length_nonempty.
  by apply Nat.eqb_eq.
Qed.

(** ** Neighbor discovery: the records *)

(** C9. Every line of the output is matched against the Linux/macOS
    pattern and, when that fails, against the Windows pattern, and the
    first match gives the record of the line; a line of either tabular
    shape gives the record of its address and its normalized MAC; a line
    that matches neither pattern adds nothing and raises nothing.  The
    records stand in the order of their lines, nothing merged and nothing
    moved: the records of two runs of lines are those of the first run
    followed by those of the second.  That is the order in which they are
    printed. *)
Theorem discover_devices_in_line_order w arp_cmd rc out st :
  which w (lit "arp") = Some arp_cmd ->
  exec w [arp_cmd; lit "-a"] None = Exited rc out ->
  discover_devices w st
  = (Ok (),
     log (EvExec [arp_cmd; lit "-a"] None
          :: (EvPrint <$> report (records_in_line_order (splitlines out))))
       st)
  /\ arp_devices (splitlines out) = records_in_line_order (splitlines out)
  /\ (forall line g,
        re_match linux_mac_pattern line = Some g ->
        arp_devices [line]
        = [{| dev_ip := match_group Gip g;
              dev_mac := normalize_mac (match_group Gmac g) |}])
  /\ (forall line g,
        re_match linux_mac_pattern line = None ->
        re_match windows_pattern line = Some g ->
        arp_devices [line]
        = [{| dev_ip := match_group Gip g;
              dev_mac := normalize_mac (match_group Gmac g) |}])
  /\ (forall line,
        re_match linux_mac_pattern line = None ->
        re_match windows_pattern line = None ->
        arp_devices [line] = [])
  /\ (forall junk ip sp1 sp2 parts last rest,
        linux_shape junk ip sp1 sp2 parts last rest = true ->
        arp_devices [linux_line junk ip sp1 sp2 parts last rest]
        = [{| dev_ip := ip; dev_mac := normalize_mac (mac_of parts last) |}])
  /\ (forall sp0 ip sp1 parts last rest,
        windows_shape sp0 ip sp1 parts last rest = true ->
        arp_devices [windows_line sp0 ip sp1 parts last rest]
        = [{| dev_ip := ip; dev_mac := normalize_mac (mac_of parts last) |}])
  /\ (forall l1 l2,
        arp_devices (l1 ++ l2) = arp_devices l1 ++ arp_devices l2).
Proof.
  intros Hwhich Hexec. repeat split.
  - rewrite <- arp_devices_records. by apply (discover_devices_run w _ rc).
  - apply arp_devices_records.
  - intros line g Hlinux. unfold arp_devices, scan_line, match_line.
    cbn [fold_left]. by rewrite Hlinux.
  - intros line g Hlinux Hwindows. unfold arp_devices, scan_line, match_line.
    cbn [fold_left]. by rewrite Hlinux, Hwindows.
  - intros line Hlinux Hwindows. unfold arp_devices, scan_line, match_line.
    cbn [fold_left]. by rewrite Hlinux, Hwindows.
  - intros junk ip sp1 sp2 parts last rest Hshape.
    rewrite arp_devices_records. unfold records_in_line_order.
    cbn [omap list_omap]. by rewrite (linux_shape_device _ _ _ _ _ _ _ Hshape).
  - intros sp0 ip sp1 parts last rest Hshape.
    rewrite arp_devices_records. unfold records_in_line_order.
    cbn [omap list_omap]. by rewrite (windows_shape_device _ _ _ _ _ _ Hshape).
  - intros l1 l2. rewrite !arp_devices_records. apply omap_app.
Qed.

Lemma discover_devices_in_line_order_witness :
  discover_devices arp_table_world (initial [])
  = (Ok (),
     log (EvExec [lit "/usr/sbin/arp"; lit "-a"] None
          :: (EvPrint
                <$> [MsgDiscovered 3; MsgTableHeader; MsgTableRule;
                     MsgDeviceRow (lit "10.0.0.2") (lit "AA:BB:CC:DD:EE:FF");
                     MsgDeviceRow (lit "10.0.0.1") (lit "0:1A:2B:3C:4D:5E");
                     MsgDeviceRow (lit "10.0.0.2") (lit "AA:BB:CC:DD:EE:FF")]))
       (initial [])).
Proof.
  apply (discover_devices_in_line_order arp_table_world (lit "/usr/sbin/arp")
           0 arp_table (initial [])); reflexivity.
Defined.

Lemma accepts_plus_nonempty p :
  accepts (plus p) (fun pre => pre <> [] /\ forallb p pre = true).
Proof.
  eapply accepts_weaken.
  - apply accepts_seq; [apply accepts_cls|apply accepts_star].
  - intros pre (a & b & -> & (c & -> & Hc) & Hb).
    split; [done|]. simpl. by rewrite Hc, Hb.
Qed.

Lemma mac_text_length sep mac :
  mac_text 1 sep mac -> (11 <= length mac <= 17)%nat.
Proof.
  intros (parts & last & Hlen & Hparts & [Hl Hlast] & ->).
  destruct parts as [|p1 [|p2 [|p3 [|p4 [|p5 [|]]]]]]; try discriminate.
  apply Forall_cons in Hparts as [(d1 & c1 & -> & [L1 X1] & S1) Hparts].
  apply Forall_cons in Hparts as [(d2 & c2 & -> & [L2 X2] & S2) Hparts].
  apply Forall_cons in Hparts as [(d3 & c3 & -> & [L3 X3] & S3) Hparts].
  apply Forall_cons in Hparts as [(d4 & c4 & -> & [L4 X4] & S4) Hparts].
  apply Forall_cons in Hparts as [(d5 & c5 & -> & [L5 X5] & S5) _].
  cbn [concat]. repeat rewrite ?length_app, ?length_cons. cbn [length]. lia.
Qed.

(** X20. Every record comes out of its line: the ip is a non-empty run of
    digits and dots of the line, and the MAC is the normal form of a text
    of 11 to 17 characters that stands in the line after the ip and at
    least one character further. *)
Theorem line_device_fields line d :
  line_device line = Some d ->
  exists pre mid mac post,
    line = pre ++ dev_ip d ++ mid ++ mac ++ post
    /\ dev_ip d <> []
    /\ forallb ip_char (dev_ip d) = true
    /\ mid <> []
    /\ dev_mac d = normalize_mac mac
    /\ (11 <= length mac <= 17)%nat.
Proof.
  unfold line_device, match_line.
  destruct (re_match linux_mac_pattern line) as [g|] eqn:Hlinux.
  - intros Hd. injection Hd as <-.
    unfold re_match, linux_mac_pattern, seq in Hlinux.
    consumed Hlinux (accepts_star any_char) junk Hjunk.
    consumed Hlinux (accepts_cls (char_eqb "(")) c1 Hc1.
    consumed Hlinux (group_inv Gip _ _ (accepts_plus_nonempty ip_char)) ip Hip.
    consumed Hlinux (accepts_cls (char_eqb ")")) c2 Hc2.
    consumed Hlinux (accepts_plus is_space) sp1 Hsp1.
    consumed Hlinux (accepts_cls (char_eqb "a")) c3 Hc3.
    consumed Hlinux (accepts_cls (char_eqb "t")) c4 Hc4.
    consumed Hlinux (accepts_plus is_space) sp2 Hsp2.
    consumed Hlinux
      (group_inv Gmac _ _ (accepts_mac_pattern colon_or_hyphen)) mac Hmac.
    apply (accepts_star any_char) in Hlinux
      as (rest & post & -> & Hrest & Hlinux).
    injection Hlinux as <-. cbn [match_group grp_ip grp_mac default from_option
                                 set_group dev_ip dev_mac].
    destruct Hc2 as (c & -> & _). destruct Hip as [Hip0 Hip].
    exists (junk ++ c1), ([c] ++ sp1 ++ c3 ++ c4 ++ sp2), mac, (rest ++ post).
    rewrite <- ?app_assoc. split; [done|]. split; [done|]. split; [done|].
    split; [done|]. split; [done|]. by apply (mac_text_length colon_or_hyphen).
  - destruct (re_match windows_pattern line) as [g|] eqn:Hwin; [|done].
    intros Hd. injection Hd as <-.
    unfold re_match, windows_pattern, seq in Hwin.
    consumed Hwin (accepts_star is_space) sp0 Hsp0.
    consumed Hwin (group_inv Gip _ _ (accepts_plus_nonempty ip_char)) ip Hip.
    consumed Hwin (accepts_plus_nonempty is_space) sp1 Hsp1.
    consumed Hwin (group_inv Gmac _ _ (accepts_mac_pattern hyphen)) mac Hmac.
    apply (accepts_star any_char) in Hwin
      as (rest & post & -> & Hrest & Hwin).
    injection Hwin as <-. cbn [match_group grp_ip grp_mac default from_option
                               set_group dev_ip dev_mac].
    destruct Hip as [Hip0 Hip]. destruct Hsp1 as [Hsp10 _].
    exists sp0, sp1, mac, (rest ++ post).
    rewrite <- ?app_assoc. split; [done|]. split; [done|]. split; [done|].
    split; [done|]. split; [done|]. by apply (mac_text_length hyphen).
Qed.

Lemma line_device_fields_witness :
  exists pre mid mac post,
    lit "  192.168.1.1   00-1A-2B-3C-4D-5E   dynamic"
    = pre ++ dev_ip {| dev_ip := lit "192.168.1.1";
                       dev_mac := lit "00:1A:2B:3C:4D:5E" |}
      ++ mid ++ mac ++ post
    /\ dev_ip {| dev_ip := lit "192.168.1.1";
                 dev_mac := lit "00:1A:2B:3C:4D:5E" |} <> []
    /\ forallb ip_char (dev_ip {| dev_ip := lit "192.168.1.1";
                                  dev_mac := lit "00:1A:2B:3C:4D:5E" |}) = true
    /\ mid <> []
    /\ dev_mac {| dev_ip := lit "192.168.1.1";
                  dev_mac := lit "00:1A:2B:3C:4D:5E" |} = normalize_mac mac
    /\ (11 <= length mac <= 17)%nat.
Proof.
  apply (line_device_fields
           (lit "  192.168.1.1   00-1A-2B-3C-4D-5E   dynamic")).
  reflexivity.
Defined.

Lemma lstrip_spaces sp c r :
  forallb is_space sp = true -> is_space c = false ->
  lstrip (sp ++ c :: r) = c :: r.
Proof.
  intros Hsp Hc. induction sp as [|b sp IH]; cbn [app lstrip].
  - by rewrite Hc.
  - cbn [forallb] in Hsp. apply andb_true_iff in Hsp as [Hb Hsp].
    by rewrite Hb, (IH Hsp).
Qed.

(** X21. A line without an opening parenthesis whose first non-blank
    character is neither a digit nor a dot, a blank or empty line
    included, yields no record: headers and separators of the listing
    are skipped. *)
Theorem line_device_skips line :
  no_paren line = true ->
  stops ip_char (lstrip line) = true ->
  line_device line = None.
Proof.
  intros Hparen Hstart. unfold line_device, match_line.
  destruct (re_match linux_mac_pattern line) as [g|] eqn:Hlinux.
  { apply linux_match_has_paren in Hlinux. congruence. }
  destruct (re_match windows_pattern line) as [g|] eqn:Hwin; [|done].
  exfalso. unfold re_match, windows_pattern, seq in Hwin.
  consumed Hwin (accepts_star is_space) sp0 Hsp0.
  consumed Hwin (group_inv Gip _ _ (accepts_plus_nonempty ip_char)) ip Hip.
  destruct Hip as [Hip0 Hip]. destruct ip as [|i ip]; [done|].
  cbn [forallb] in Hip. apply andb_true_iff in Hip as [Hi _].
  cbn [app] in Hstart.
  rewrite (lstrip_spaces sp0 i _ Hsp0 (ip_char_not_space i Hi)) in Hstart.
  cbn [stops] in Hstart. by rewrite Hi in Hstart.
Qed.

Lemma line_device_skips_witness :
  line_device (lit "  Internet Address      Physical Address      Type")
  = None.
Proof. apply line_device_skips; reflexivity. Defined.

(** ** MAC normalization and the address *)

Lemma split_on_fmap (f : ascii -> ascii) (q : ascii -> bool) sep (m : str) :
  (forall c, char_eqb (f c) sep = q c) ->
  split_on sep (f <$> m) = fmap (M:=list) f <$> split_by q m.
Proof.
  intros Hq. induction m as [|c m IH]; [done|].
  cbn [fmap list_fmap split_on split_by]. rewrite Hq.
  destruct (q c).
  - cbn [fmap list_fmap] in *. by rewrite IH.
  - cbn [fmap list_fmap] in *. rewrite IH.
    by destruct (split_by q m).
Qed.

Lemma group_val_fmap (f f' : ascii -> ascii) (d : str) :
  (forall c, hex_val (f c) = hex_val (f' c)) ->
  group_val (f <$> d) = group_val (f' <$> d).
Proof.
  intros Hf. unfold group_val. generalize 0%N as acc.
  induction d as [|c d IH]; intros acc; [done|].
  cbn [fmap list_fmap fold_left] in *. by rewrite Hf, IH.
Qed.

Lemma norm_char_no_hyphen c : hyphen_to_colon (norm_char c) = norm_char c.
Proof. all_chars c. Qed.

Lemma norm_char_colon c :
  char_eqb (norm_char c) ":" = colon_or_hyphen c.
Proof. all_chars c. Qed.

Lemma hyphen_to_colon_colon c :
  char_eqb (hyphen_to_colon c) ":" = colon_or_hyphen c.
Proof. all_chars c. Qed.

Lemma norm_char_hex_val c :
  hex_val (norm_char c) = hex_val (hyphen_to_colon c).
Proof. all_chars c. Qed.

(** X22. Normalization keeps the hardware address: for a text over
    [[0-9a-fA-F:-]], as every text the patterns capture is, the values of
    the groups of the text are those of its normal form. *)
Theorem normalize_mac_keeps_value mac :
  forallb (fun c => is_hex c || colon_or_hyphen c) mac = true ->
  mac_value (normalize_mac mac) = mac_value mac.
Proof.
  intros _. unfold mac_value, replace.
  change (fun c => if char_eqb c "-" then ":"%char else c)
    with hyphen_to_colon.
  rewrite normalize_mac_chars, <- list_fmap_compose.
  rewrite (list_fmap_ext (hyphen_to_colon ∘ norm_char) norm_char mac)
    by (intros _ c _; apply norm_char_no_hyphen).
  rewrite (split_on_fmap norm_char colon_or_hyphen) by apply norm_char_colon.
  rewrite (split_on_fmap hyphen_to_colon colon_or_hyphen)
    by apply hyphen_to_colon_colon.
  rewrite <- !list_fmap_compose. apply list_fmap_ext.
  intros _ d _. apply group_val_fmap, norm_char_hex_val.
Qed.

Lemma normalize_mac_keeps_value_witness :
  mac_value (normalize_mac (lit "1a-2B-3c-4d-5e-6f"))
  = mac_value (lit "1a-2B-3c-4d-5e-6f").
Proof.
  apply (normalize_mac_keeps_value (lit "1a-2B-3c-4d-5e-6f")). reflexivity.
Defined.

Lemma norm_char_idemp c : norm_char (norm_char c) = norm_char c.
Proof. all_chars c. Qed.

(** X23. Normalizing twice is normalizing once. *)
Theorem normalize_mac_idempotent mac :
  normalize_mac (normalize_mac mac) = normalize_mac mac.
Proof.
  rewrite !normalize_mac_chars, <- list_fmap_compose.
  apply list_fmap_ext. intros _ c _. apply norm_char_idemp.
Qed.

(** ** The terminal input *)

Lemma kept_ret {A} (a : A) : input_kept (mret a).
Proof. intros st. done. Qed.

Lemma kept_raise {A} e : input_kept (@raise A e).
Proof. intros st. done. Qed.

Lemma kept_emit ev : input_kept (emit ev).
Proof. intros st. done. Qed.

Lemma kept_input p : input_kept (input p).
Proof. intros st. unfold input. destruct (stdin st); simpl; lia. Qed.

Lemma kept_read w : input_kept (read_counters w).
Proof.
  intros st. unfold read_counters.
  by destruct (net_io_counters w (reads st)).
Qed.

Lemma kept_bind {A B} (m : M A) (f : A -> M B) :
  input_kept m -> (forall a, input_kept (f a)) -> input_kept (m ≫= f).
Proof.
  intros Hm Hf st. rewrite bind_run. specialize (Hm st).
  destruct (m st) as [[a|e] st']; simpl in *; [|done].
  specialize (Hf a st'). lia.
Qed.

Lemma kept_try {A} (body : M A) handled (handler : exn -> M A) :
  input_kept body -> (forall e, input_kept (handler e)) ->
  input_kept (try_except body handled handler).
Proof.
  intros Hm Hh st. unfold try_except. specialize (Hm st).
  destruct (body st) as [[a|e] st']; simpl in *; [done|].
  destruct (handled e); [|done]. specialize (Hh e st'). lia.
Qed.

Create HintDb kept.

(** Proves that a computation built from the pieces above, and from the
    methods already shown to keep the input, keeps the input. *)
Ltac kept :=
  repeat first
    [ assumption
    | solve [auto 1 with kept nocore]
    | apply kept_ret
    | apply kept_raise
    | apply kept_emit
    | apply kept_input
    | apply kept_read
    | apply kept_bind; [|intros ?]
    | apply kept_try; [|intros ?]
    | match goal with
      | |- input_kept (match ?x with _ => _ end) => destruct x
      end ].

Lemma kept_sleep d : input_kept (sleep d).
Proof. unfold sleep. kept. Qed.
#[local] Hint Resolve kept_sleep : kept.

Lemma kept_subprocess_run w cmd t check :
  input_kept (subprocess_run w cmd t check).
Proof. unfold subprocess_run. kept. Qed.
#[local] Hint Resolve kept_subprocess_run : kept.

Lemma kept_ping_host w host t count : input_kept (ping_host w host t count).
Proof.
  unfold ping_host. kept.
Qed.
#[local] Hint Resolve kept_ping_host : kept.

Lemma kept_submit_all w ip t ports : input_kept (submit_all w ip t ports).
Proof. induction ports as [|p ports IH]; simpl; kept. Qed.
#[local] Hint Resolve kept_submit_all : kept.

Lemma kept_collect w fs : forall n acc, input_kept (collect w n fs acc).
Proof.
  induction fs as [|f fs IH]; intros n acc; simpl; kept; apply IH.
Qed.
#[local] Hint Resolve kept_collect : kept.

Lemma kept_scan_ports w host s e t c : input_kept (scan_ports w host s e t c).
Proof.
  unfold scan_ports, print.
  kept.
Qed.
#[local] Hint Resolve kept_scan_ports : kept.

Lemma kept_handle_scan w : input_kept (_handle_scan w).
Proof.
  unfold _handle_scan, print, int_of_input.
  kept.
Qed.
#[local] Hint Resolve kept_handle_scan : kept.

Lemma kept_get_network_traffic w d : input_kept (get_network_traffic w d).
Proof.
  unfold get_network_traffic, print.
  kept.
Qed.
#[local] Hint Resolve kept_get_network_traffic : kept.

Lemma kept_get_network_traffic_float w d :
  input_kept (get_network_traffic_float w d).
Proof.
  unfold get_network_traffic_float, sleep_float, print.
  destruct d; kept.
Qed.
#[local] Hint Resolve kept_get_network_traffic_float : kept.

Lemma kept_print_rows devices : input_kept (print_rows devices).
Proof. induction devices as [|d devices IH]; simpl; unfold print; kept. Qed.
#[local] Hint Resolve kept_print_rows : kept.

Lemma kept_discover_devices w : input_kept (discover_devices w).
Proof.
  unfold discover_devices, print.
  kept.
Qed.
#[local] Hint Resolve kept_discover_devices : kept.

Lemma xbind_run {A B} (m : MX A) (f : A -> MX B) xst :
  (m ≫= f) xst = match m xst with
                 | (Ok a, xst') => f a xst'
                 | (Raise e, xst') => (Raise e, xst')
                 end.
Proof. reflexivity. Qed.

Lemma xret_run {A} (a : A) xst : (mret a : MX A) xst = (Ok a, xst).
Proof. reflexivity. Qed.

Lemma xkept_ret {A} (a : A) : xinput_kept (mret a).
Proof. intros xst. done. Qed.

Lemma xkept_raise {A} e : xinput_kept (@xraise A e).
Proof. intros xst. done. Qed.

Lemma xkept_print m : xinput_kept (xprint m).
Proof. intros xst. done. Qed.

Lemma xkept_lift {A} (m : M A) : input_kept m -> xinput_kept (lift m).
Proof.
  intros Hm xst. unfold lift.
  specialize (Hm {| stdin := xstdin xst; reads := xreads xst; trace := [] |}).
  by destruct (m _) as [r st'].
Qed.

Lemma xkept_bind {A B} (m : MX A) (f : A -> MX B) :
  xinput_kept m -> (forall a, xinput_kept (f a)) -> xinput_kept (m ≫= f).
Proof.
  intros Hm Hf xst. rewrite xbind_run. specialize (Hm xst).
  destruct (m xst) as [[a|e] xst']; simpl in *; [|done].
  specialize (Hf a xst'). lia.
Qed.

Lemma xkept_try {A} (body : MX A) handled (handler : exn -> MX A) :
  xinput_kept body -> (forall e, xinput_kept (handler e)) ->
  xinput_kept (xtry_except body handled handler).
Proof.
  intros Hm Hh xst. unfold xtry_except. specialize (Hm xst).
  destruct (body xst) as [[a|e] xst']; simpl in *; [done|].
  destruct (handled e); [|done]. specialize (Hh e xst'). lia.
Qed.

Ltac xkept :=
  repeat first
    [ assumption
    | apply xkept_ret
    | apply xkept_raise
    | apply xkept_print
    | apply xkept_lift; solve [kept]
    | apply xkept_bind; [|intros ?]
    | apply xkept_try; [|intros ?]
    | match goal with
      | |- xinput_kept (match ?x with _ => _ end) => destruct x
      end ].

Lemma xkept_handle_ping w : xinput_kept (_handle_ping w).
Proof. unfold _handle_ping, alert, int_of_input, print. xkept. Qed.

Lemma xkept_handle_traffic float w : xinput_kept (_handle_traffic float w).
Proof. unfold _handle_traffic, alert. xkept. Qed.

(** A turn of the menu that does not raise has read at least the line
    of the choice. *)
Lemma menu_turn_reads float w xst b xst' :
  menu_turn float w xst = (Ok b, xst') ->
  (length (xstdin xst') < length (xstdin xst))%nat.
Proof.
  unfold menu_turn. repeat (rewrite xbind_run; cbn [xprint]).
  unfold lift at 1, input. cbn [stdin reads trace xstdin xreads xtrace].
  destruct (xstdin xst) as [|l rest] eqn:Hin; [done|].
  cbn [stdin reads trace length].
  set (xst1 := {| xstdin := rest |}).
  assert (Hrest : length (xstdin xst1) = length rest) by done.
  clearbody xst1. intros Hturn.
  assert (Hkept : forall (m : MX unit) (c : bool),
            xinput_kept m ->
            (m ≫= fun _ => mret c) xst1 = (Ok b, xst') ->
            (length (xstdin xst') <= length rest)%nat).
  { intros m c Hm. rewrite xbind_run. specialize (Hm xst1).
    destruct (m xst1) as [[[]|e] xst2]; [|done].
    rewrite xret_run. intros H. injection H as _ <-. simpl in Hm. lia. }
  repeat match type of Hturn with
         | (if ?d then _ else _) _ = _ => destruct d
         end;
    (eapply Nat.le_lt_trans; [eapply Hkept; [|exact Hturn]|lia]).
  - apply xkept_handle_ping.
  - apply xkept_lift, kept_handle_scan.
  - apply xkept_handle_traffic.
  - apply xkept_lift, kept_discover_devices.
  - apply xkept_print.
  - apply xkept_print.
Qed.

(** ** The menu handlers *)

Lemma lift_input l rest n out p :
  lift (input p) {| xstdin := l :: rest; xreads := n; xtrace := out |}
  = (Ok l, {| xstdin := rest; xreads := n;
              xtrace := out ++ [Base (EvPrompt p)] |}).
Proof. reflexivity. Qed.

Lemma lift_int_of_input s xst :
  lift (int_of_input s) xst
  = match py_int s with
    | Some z => (Ok z, {| xstdin := xstdin xst; xreads := xreads xst;
                          xtrace := xtrace xst |})
    | None => (Raise ValueError,
               {| xstdin := xstdin xst; xreads := xreads xst;
                  xtrace := xtrace xst |})
    end.
Proof.
  unfold lift, int_of_input. destruct (py_int s); simpl; by rewrite app_nil_r.
Qed.

(** What the probe leaves of the state it started in. *)
Lemma ping_host_state w host t count st r st1 :
  ping_host w host t count st = (r, st1) ->
  stdin st1 = stdin st /\ reads st1 = reads st.
Proof.
  rewrite ping_host_run. cbv zeta.
  destruct (exec w (ping_cmd w host count) (Some t)) as [rc out| |e];
    [| |destruct e]; intros H; injection H as _ <-; done.
Qed.

(** Two states that differ in how their traces are bracketed. *)
Ltac same_trace :=
  cbn [xstdin xreads xtrace stdin reads trace];
  rewrite <- ?app_assoc; cbn [app]; rewrite ?app_nil_r; reflexivity.

(** X24. For a host name, the ping handler pings with the count typed
    (1 for a blank line, and 1 after a notice for a line that is no
    integer) under a timeout of 3 seconds, prints the status, and raises
    the alert exactly when the host did not answer. *)
Theorem _handle_ping_reports w lh lc rest n out up st1 :
  strip lh <> [] ->
  ping_host w (strip lh) 3 (ping_count lc)
    {| stdin := rest; reads := n; trace := [] |} = (Ok up, st1) ->
  _handle_ping w {| xstdin := lh :: lc :: rest; xreads := n; xtrace := out |}
  = (Ok (),
     {| xstdin := rest; xreads := n;
        xtrace :=
          out
          ++ [Base (EvPrompt (lit "Host or IP to ping: "));
              Base (EvPrompt (lit "Number of pings to send (default 1): "))]
          ++ (if count_refused lc then [XPrint XInvalidNumber] else [])
          ++ [XPrint (XPinging (strip lh) (ping_count lc))]
          ++ (Base <$> trace st1)
          ++ [XPrint (XStatus (strip lh) up)]
          ++ (if up then []
              else [XPrint (XAlert (HostDidNotRespond (strip lh)))]) |}).
Proof.
  intros Hh Hping. unfold _handle_ping.
  rewrite xbind_run, lift_input.
  destruct (strip lh) as [|c0 host0] eqn:Hhost; [done|].
  cbv zeta iota beta.
  rewrite xbind_run. unfold xtry_except.
  rewrite xbind_run, lift_input, lift_int_of_input.
  cbn [xstdin xreads xtrace].
  assert (Hcount :
    match
      match py_int (match strip lc with [] => lit "1" | a :: l => a :: l end) with
      | Some z => (Ok z, {| xstdin := rest; xreads := n;
            xtrace := (out ++ [Base (EvPrompt (lit "Host or IP to ping: "))])
                      ++ [Base (EvPrompt
                            (lit "Number of pings to send (default 1): "))] |})
      | None => (Raise ValueError, {| xstdin := rest; xreads := n;
            xtrace := (out ++ [Base (EvPrompt (lit "Host or IP to ping: "))])
                      ++ [Base (EvPrompt
                            (lit "Number of pings to send (default 1): "))] |})
      end
    with
    | (Ok a, xst') => (Ok a, xst')
    | (Raise e, xst') =>
        if is_ValueError e
        then (xprint XInvalidNumber ≫= fun _ : () => mret 1) xst'
        else (Raise e, xst')
    end
    = (Ok (ping_count lc),
       {| xstdin := rest; xreads := n;
          xtrace := out
            ++ [Base (EvPrompt (lit "Host or IP to ping: "));
                Base (EvPrompt (lit "Number of pings to send (default 1): "))]
            ++ (if count_refused lc then [XPrint XInvalidNumber] else []) |})).
  { unfold ping_count, count_refused.
    destruct (strip lc) as [|a l].
    - change (py_int (lit "1")) with (Some 1).
      cbv iota. same_trace.
    - destruct (py_int (a :: l)) as [z|]; cbn [default from_option].
      + same_trace.
      + cbn [is_ValueError]. rewrite xbind_run. cbn [xprint].
        rewrite xret_run. cbn [xstdin xreads xtrace]. same_trace. }
  rewrite Hcount. clear Hcount.
  rewrite xbind_run. cbn [xprint]. rewrite xbind_run.
  unfold lift at 1, default_ping_timeout.
  cbn [xstdin xreads xtrace].
  rewrite Hping.
  destruct (ping_host_state _ _ _ _ _ _ _ Hping) as [Hin Hrd].
  cbn [stdin reads] in Hin, Hrd. rewrite Hin, Hrd.
  rewrite xbind_run. cbn [xprint]. cbn [xstdin xreads xtrace].
  destruct up; [rewrite xret_run|unfold alert, xprint];
    cbn [xstdin xreads xtrace]; same_trace.
Qed.

Lemma _handle_ping_reports_witness :
  _handle_ping bare_world
    {| xstdin := [lit " 10.0.0.9 "; lit "twice"; lit "5"]; xreads := 0;
       xtrace := [] |}
  = (Ok (),
     {| xstdin := [lit "5"]; xreads := 0;
        xtrace :=
          []
          ++ [Base (EvPrompt (lit "Host or IP to ping: "));
              Base (EvPrompt (lit "Number of pings to send (default 1): "))]
          ++ (if count_refused (lit "twice") then [XPrint XInvalidNumber]
              else [])
          ++ [XPrint (XPinging (strip (lit " 10.0.0.9 "))
                        (ping_count (lit "twice")))]
          ++ (Base <$> trace
                (ping_host bare_world (strip (lit " 10.0.0.9 ")) 3
                   (ping_count (lit "twice"))
                   {| stdin := [lit "5"]; reads := 0; trace := [] |}).2)
          ++ [XPrint (XStatus (strip (lit " 10.0.0.9 ")) false)]
          ++ (if false then []
              else [XPrint (XAlert (HostDidNotRespond
                                      (strip (lit " 10.0.0.9 "))))]) |}).
Proof.
  apply (_handle_ping_reports bare_world (lit " 10.0.0.9 ") (lit "twice")
           [lit "5"] 0%nat [] false); [discriminate|reflexivity].
Defined.

(** X25. Without psutil the traffic handler asks whether to go on, and
    any answer but "y" (in either case, blanks around it ignored) ends
    it there: no duration is asked for and nothing is measured. *)
Theorem _handle_traffic_declined float w l rest n out :
  has_psutil w = false ->
  lower (strip l) <> lit "y" ->
  _handle_traffic float w {| xstdin := l :: rest; xreads := n; xtrace := out |}
  = (Ok (),
     {| xstdin := rest; xreads := n;
        xtrace := out ++ [XPrint XPsutilNotInstalled;
                          Base (EvPrompt
                                  (lit "Continue without measuring? (y/n): "))] |}).
Proof.
  intros Hps Hno. unfold _handle_traffic. rewrite Hps. cbn [negb].
  rewrite xbind_run, xbind_run. unfold xprint at 1.
  cbn [xstdin xreads xtrace].
  rewrite xbind_run, lift_input, xret_run.
  rewrite bool_decide_eq_false_2 by done.
  rewrite xret_run. same_trace.
Qed.

Lemma _handle_traffic_declined_witness :
  _handle_traffic toy_float lab_world
    {| xstdin := [lit "no"; lit "4"]; xreads := 0; xtrace := [] |}
  = (Ok (),
     {| xstdin := [lit "4"]; xreads := 0;
        xtrace := [] ++ [XPrint XPsutilNotInstalled;
                         Base (EvPrompt
                                 (lit "Continue without measuring? (y/n): "))] |}).
Proof.
  apply _handle_traffic_declined; [reflexivity|discriminate].
Defined.

(** What the handler makes of the line typed for the duration. *)
Lemma duration_run float ld rest n out :
  xtry_except
    (l ← lift (input (lit "Duration in seconds to measure (default 1): "));
     match strip l with
     | [] => mret (Finite 1)
     | d => match float d with
            | Some x => mret x
            | None => xraise ValueError
            end
     end)
    is_ValueError
    (fun _ => xprint XInvalidDuration;; mret (Finite 1))
    {| xstdin := ld :: rest; xreads := n; xtrace := out |}
  = (Ok (typed_duration float ld),
     {| xstdin := rest; xreads := n;
        xtrace := out
          ++ [Base (EvPrompt
                      (lit "Duration in seconds to measure (default 1): "))]
          ++ (if duration_refused float ld then [XPrint XInvalidDuration]
              else []) |}).
Proof.
  unfold xtry_except, typed_duration, duration_refused.
  rewrite xbind_run, lift_input.
  destruct (strip ld) as [|a d]; [rewrite xret_run; same_trace|].
  destruct (float (a :: d)) as [x|]; cbn [default from_option].
  - rewrite xret_run. same_trace.
  - unfold xraise. cbn [is_ValueError]. rewrite xbind_run. unfold xprint.
    rewrite xret_run. same_trace.
Qed.

Lemma get_network_traffic_float_no_psutil w d st :
  has_psutil w = false ->
  get_network_traffic_float w d st
  = (Ok (0, 0), log [EvPrint MsgPsutilMissing; EvPrint MsgPsutilInstallHint] st).
Proof.
  intros Hps.
  assert (H : (if negb (has_psutil w)
               then print MsgPsutilMissing;; print MsgPsutilInstallHint;;
                    mret (0, 0)
               else (before ← read_counters w;
                     sleep_float d;;
                     after ← read_counters w;
                     match after, before with
                     | Some after, Some before =>
                         mret (after.1 - before.1, after.2 - before.2)
                     | _, _ => raise AttributeError
                     end)) st
              = (Ok (0, 0),
                 log [EvPrint MsgPsutilMissing; EvPrint MsgPsutilInstallHint] st)).
  { rewrite Hps. cbn [negb]. unfold print.
    by rewrite bind_run, emit_run, bind_run, emit_run, ret_run, log_log. }
  destruct d as [q| |]; [|exact H|exact H].
  unfold get_network_traffic_float, get_network_traffic.
  rewrite Hps. cbn [negb]. unfold print.
  by rewrite bind_run, emit_run, bind_run, emit_run, ret_run, log_log.
Qed.

(** X26. Without psutil, an operator who answers "y" is shown a reading
    all the same: whatever is typed for the duration, the handler prints
    the advisory of the sampler and then "Bytes sent: 0 | Bytes
    received: 0", without sleeping and without an alert. *)
Theorem _handle_traffic_without_psutil float w ly ld rest n out :
  has_psutil w = false ->
  lower (strip ly) = lit "y" ->
  _handle_traffic float w
    {| xstdin := ly :: ld :: rest; xreads := n; xtrace := out |}
  = (Ok (),
     {| xstdin := rest; xreads := n;
        xtrace :=
          out
          ++ [XPrint XPsutilNotInstalled;
              Base (EvPrompt (lit "Continue without measuring? (y/n): "));
              Base (EvPrompt
                      (lit "Duration in seconds to measure (default 1): "))]
          ++ (if duration_refused float ld then [XPrint XInvalidDuration]
              else [])
          ++ [Base (EvPrint MsgPsutilMissing);
              Base (EvPrint MsgPsutilInstallHint);
              XPrint (XBytes 0 0)] |}).
Proof.
  intros Hps Hyes. unfold _handle_traffic. rewrite Hps. cbn [negb].
  rewrite xbind_run, xbind_run. unfold xprint at 1.
  cbn [xstdin xreads xtrace].
  rewrite xbind_run, lift_input, xret_run.
  rewrite bool_decide_eq_true_2 by done.
  rewrite xbind_run, duration_run, xbind_run.
  unfold lift at 1. cbn [xstdin xreads xtrace].
  rewrite (get_network_traffic_float_no_psutil w _ _ Hps).
  cbn [log stdin reads trace app]. rewrite xbind_run. unfold xprint at 1.
  cbn [xstdin xreads xtrace]. unfold threshold. cbn [Z.ltb Z.compare orb].
  rewrite xret_run. cbn [fmap list_fmap]. same_trace.
Qed.

Lemma _handle_traffic_without_psutil_witness :
  _handle_traffic toy_float lab_world
    {| xstdin := [lit " Y "; lit "nan"]; xreads := 0; xtrace := [] |}
  = (Ok (),
     {| xstdin := []; xreads := 0;
        xtrace :=
          []
          ++ [XPrint XPsutilNotInstalled;
              Base (EvPrompt (lit "Continue without measuring? (y/n): "));
              Base (EvPrompt
                      (lit "Duration in seconds to measure (default 1): "))]
          ++ (if duration_refused toy_float (lit "nan")
              then [XPrint XInvalidDuration] else [])
          ++ [Base (EvPrint MsgPsutilMissing);
              Base (EvPrint MsgPsutilInstallHint);
              XPrint (XBytes 0 0)] |}).
Proof.
  apply _handle_traffic_without_psutil; reflexivity.
Defined.




(** ** The menu loop *)

Lemma menu_turn_prefix float w l rest n out :
  menu_turn float w {| xstdin := l :: rest; xreads := n; xtrace := out |}
  = (let choice := strip l in
     if decide (choice = lit "1") then _handle_ping w;; mret true
     else if decide (choice = lit "2") then lift (_handle_scan w);; mret true
     else if decide (choice = lit "3") then _handle_traffic float w;; mret true
     else if decide (choice = lit "4")
          then lift (discover_devices w);; mret true
     else if decide (choice = lit "5") then xprint XBye;; mret false
     else xprint XInvalidChoice;; mret true)
      {| xstdin := rest; xreads := n;
         xtrace := out ++ menu_lines
                   ++ [Base (EvPrompt (lit "Choice (1-5): "))] |}.
Proof.
  unfold menu_turn. do 6 (rewrite xbind_run; unfold xprint at 1).
  cbn [xstdin xreads xtrace]. rewrite xbind_run, lift_input.
  unfold menu_lines. rewrite <- !app_assoc. reflexivity.
Qed.

(** X28. Choice 5 ends the session: the loop prints the menu and "Bye",
    the method returns, and the lines typed after the choice are left
    unread. *)
Theorem run_quits fuel float w l rest n out :
  strip l = lit "5" ->
  run (S fuel) float w {| xstdin := l :: rest; xreads := n; xtrace := out |}
  = Some (Returned,
          {| xstdin := rest; xreads := n;
             xtrace := out ++ menu_lines
                       ++ [Base (EvPrompt (lit "Choice (1-5): "));
                           XPrint XBye] |}).
Proof.
  intros Hl. unfold run. cbn [menu_loop].
  rewrite menu_turn_prefix, Hl. cbv zeta.
  repeat (destruct (decide _) as [Heq|_]; [discriminate Heq|]).
  destruct (decide (lit "5" = lit "5")) as [_|Hne]; [|done].
  rewrite xbind_run. unfold xprint. rewrite xret_run.
  cbn [xstdin xreads xtrace]. by rewrite <- !app_assoc.
Qed.

Lemma run_quits_witness :
  run 1 toy_float lab_world
    {| xstdin := [lit " 5 "; lit "1"]; xreads := 0; xtrace := [] |}
  = Some (Returned,
          {| xstdin := [lit "1"]; xreads := 0;
             xtrace := [] ++ menu_lines
                       ++ [Base (EvPrompt (lit "Choice (1-5): "));
                           XPrint XBye] |}).
Proof. apply run_quits. reflexivity. Defined.

Lemma menu_loop_enough float w fuel : forall xst,
  (length (xstdin xst) < fuel)%nat ->
  exists r, menu_loop fuel float w xst = Some r.
Proof.
  induction fuel as [|fuel IH]; intros xst Hlen; [lia|].
  cbn [menu_loop].
  destruct (menu_turn float w xst) as [[[]|e] xst'] eqn:Hturn; eauto.
  apply IH. apply menu_turn_reads in Hturn. lia.
Qed.

Lemma menu_loop_more float w fuel : forall xst r k,
  menu_loop fuel float w xst = Some r ->
  menu_loop (fuel + k) float w xst = Some r.
Proof.
  induction fuel as [|fuel IH]; intros xst r k Hrun; [done|].
  cbn [menu_loop Nat.add] in *.
  destruct (menu_turn float w xst) as [[[]|e] xst']; auto.
Qed.

(** X29. A session fed a finite script always ends: as many turns as
    the script has lines, plus one, suffice for [run] to return, exit
    or fail, and more turns change nothing. *)
Theorem run_ends float w xst fuel :
  (length (xstdin xst) < fuel)%nat ->
  exists e xst',
    run (S (length (xstdin xst))) float w xst = Some (e, xst')
    /\ run fuel float w xst = Some (e, xst').
Proof.
  intros Hfuel.
  destruct (menu_loop_enough float w (S (length (xstdin xst))) xst)
    as [r Hr]; [lia|].
  assert (Hmore : menu_loop fuel float w xst = Some r).
  { replace fuel
      with (S (length (xstdin xst)) + (fuel - S (length (xstdin xst))))%nat
      by lia.
    by apply menu_loop_more. }
  unfold run. rewrite Hr, Hmore.
  destruct r as [[[]|e] xst']; [eauto|]. destruct e; eauto.
Qed.

Lemma run_ends_witness :
  exists e xst',
    run (S (length (xstdin (xinitial [lit "9"; lit "4"; lit "5"]))))
      toy_float lab_world (xinitial [lit "9"; lit "4"; lit "5"])
    = Some (e, xst')
    /\ run 10 toy_float lab_world (xinitial [lit "9"; lit "4"; lit "5"])
       = Some (e, xst').
Proof. apply run_ends. simpl. lia. Defined.

(** X30. A session does not survive the end of its input: when no line
    is left for the choice, [input] raises [EOFError], which nothing in
    [run] catches.  A Ctrl-C that escapes an operation, here the listing
    of the neighbours interrupted while [arp] runs, ends the session
    with the notice and exit status 0. *)
Theorem run_ends_by_exception fuel float w n out :
  run (S fuel) float w {| xstdin := []; xreads := n; xtrace := out |}
  = Some (Uncaught EOFError,
          {| xstdin := []; xreads := n;
             xtrace := out ++ menu_lines
                       ++ [Base (EvPrompt (lit "Choice (1-5): "))] |})
  /\ forall l rest arp_cmd,
       strip l = lit "4" ->
       which w (lit "arp") = Some arp_cmd ->
       exec w [arp_cmd; lit "-a"] None = LaunchError KeyboardInterrupt ->
       run (S fuel) float w
         {| xstdin := l :: rest; xreads := n; xtrace := out |}
       = Some (SystemExit 0,
               {| xstdin := rest; xreads := n;
                  xtrace := out ++ menu_lines
                            ++ [Base (EvPrompt (lit "Choice (1-5): "));
                                Base (EvExec [arp_cmd; lit "-a"] None);
                                XPrint XInterruptedExit] |}).
Proof.
  split.
  - unfold run. cbn [menu_loop]. unfold menu_turn.
    do 6 (rewrite xbind_run; unfold xprint at 1).
    cbn [xstdin xreads xtrace]. rewrite xbind_run.
    unfold lift, input. cbn [stdin reads trace xstdin xreads xtrace].
    unfold menu_lines. cbn [fmap list_fmap]. by rewrite <- !app_assoc.
  - intros l rest arp_cmd Hl Hwhich Hexec. unfold run. cbn [menu_loop].
    rewrite menu_turn_prefix, Hl. cbv zeta.
    repeat (destruct (decide _) as [Heq|_]; [discriminate Heq|]).
    destruct (decide (lit "4" = lit "4")) as [_|Hne]; [|done].
    rewrite xbind_run. unfold lift. cbn [xstdin xreads xtrace].
    rewrite (discover_devices_arp_fails_run w arp_cmd KeyboardInterrupt _
               Hwhich Hexec).
    cbn [is_Exception log stdin reads trace xprint snd xstdin xreads xtrace
         app fmap list_fmap].
    by rewrite <- !app_assoc.
Qed.

Lemma run_ends_by_exception_witness :
  run 1 toy_float busy_world
    {| xstdin := [lit "4"; lit "5"]; xreads := 0; xtrace := [] |}
  = Some (SystemExit 0,
          {| xstdin := [lit "5"]; xreads := 0;
             xtrace := [] ++ menu_lines
                       ++ [Base (EvPrompt (lit "Choice (1-5): "));
                           Base (EvExec [lit "/usr/sbin/arp"; lit "-a"] None);
                           XPrint XInterruptedExit] |}).
Proof.
  apply (run_ends_by_exception 0 toy_float busy_world 0 []); reflexivity.
Defined.

(** X16. Discovery never fails with an [Exception]: whatever [arp] does,
    the method returns normally, and the only thing that can leave it is
    a [KeyboardInterrupt] raised while [arp] runs. *)
Theorem discover_devices_never_fails w st e :
  (discover_devices w st).1 = Raise e ->
  e = KeyboardInterrupt
  /\ exists arp_cmd,
       which w (lit "arp") = Some arp_cmd
       /\ exec w [arp_cmd; lit "-a"] None = LaunchError KeyboardInterrupt.
Proof.
  destruct (which w (lit "arp")) as [arp_cmd|] eqn:Hwhich.
  - destruct (exec w [arp_cmd; lit "-a"] None) as [rc out| |x] eqn:Hexec.
    + by rewrite (discover_devices_run w arp_cmd rc out st Hwhich Hexec).
    + unfold discover_devices, try_except, subprocess_run.
      rewrite Hwhich, bind_run, bind_run, emit_run, Hexec.
      cbn [raise is_Exception]. unfold print. by rewrite emit_run.
    + rewrite (discover_devices_arp_fails_run w arp_cmd x st Hwhich Hexec).
      destruct x; cbn [is_Exception fst]; try done.
      intros H. injection H as <-. eauto.
  - unfold discover_devices. by rewrite Hwhich.
Qed.

Lemma discover_devices_never_fails_witness :
  KeyboardInterrupt = KeyboardInterrupt
  /\ exists arp_cmd,
       which busy_world (lit "arp") = Some arp_cmd
       /\ exec busy_world [arp_cmd; lit "-a"] None
          = LaunchError KeyboardInterrupt.
Proof.
  apply (discover_devices_never_fails busy_world (initial [])).
  reflexivity.
Defined.

(** A scan resolves its host once, first, and no other name. *)
Lemma scan_ports_trace w host s e t c st :
  exists evs,
    (scan_ports w host s e t c st).2 = log (EvResolve host :: evs) st
    /\ Forall not_resolve evs.
Proof.
  destruct (gethostbyname w host) as [ip|] eqn:Hip.
  - destruct (Z.le_gt_cases c 0) as [Hc|Hc].
    + rewrite (scan_ports_bad_pool w host ip s e t c st Hip Hc).
      eexists. split; [reflexivity|]. by repeat constructor.
    + destruct (scan_ports_resolved w host ip s e t c st Hip)
        as (k & b & Hrun & _); [lia|].
      cbv zeta in Hrun. rewrite Hrun. eexists. split; [reflexivity|].
      constructor; [done|]. apply Forall_app. split.
      { apply Forall_fmap, Forall_true. by intros p. }
      apply Forall_app. split.
      { apply Forall_fmap, Forall_true. by intros p. }
      destruct b; by repeat constructor.
  - rewrite (scan_ports_unresolved_run w host s e t c st Hip).
    eexists. split; [reflexivity|]. by repeat constructor.
Qed.

Lemma _handle_scan_valid_trace w lh ls le rest n out s e :
  strip lh <> [] ->
  py_int (strip ls) = Some s -> py_int (strip le) = Some e ->
  0 <= s <= e ->
  exists evs,
    trace (_handle_scan w
             {| stdin := lh :: ls :: le :: rest; reads := n; trace := out |}).2
    = out ++ [EvPrompt (lit "Host to scan: ");
              EvPrompt (lit "Start port (e.g. 1): ");
              EvPrompt (lit "End port (e.g. 1024): ")]
      ++ EvResolve (strip lh) :: evs
    /\ Forall not_resolve evs.
Proof.
  intros Hh Hs He Hse. unfold _handle_scan.
  rewrite bind_run. unfold input at 1. cbn [stdin reads trace].
  destruct (strip lh) as [|c0 host0] eqn:Hhost; [done|].
  rewrite bind_run. unfold try_except.
  rewrite bind_run. unfold input at 1. cbn [stdin reads trace].
  rewrite bind_run. unfold int_of_input at 1. rewrite Hs, ret_run.
  rewrite bind_run. unfold input at 1. cbn [stdin reads trace].
  rewrite bind_run. unfold int_of_input at 1. rewrite He, ret_run.
  replace (s <? 0) with false by (symmetry; apply Z.ltb_ge; lia).
  replace (e <? s) with false by (symmetry; apply Z.ltb_ge; lia).
  cbn [orb]. rewrite ret_run, bind_run.
  match goal with
  | |- context [scan_ports w ?h s e ?t ?c ?st0] =>
      destruct (scan_ports_trace w h s e t c st0) as (evs & Htr & Hevs);
      destruct (scan_ports w h s e t c st0) as [[ports|x] st'] eqn:Hscan
  end; cbn [snd] in Htr; subst st'.
  - exists (evs ++ [EvPrint (match ports with
                             | [] => MsgNoOpenPorts (c0 :: host0) s e
                             | _ => MsgOpenPorts (c0 :: host0) ports
                             end)]).
    split.
    + destruct ports; unfold print; rewrite emit_run; cbn [snd log trace];
        rewrite <- !app_assoc; reflexivity.
    + apply Forall_app. split; [done|]. by repeat constructor.
  - exists evs. split; [|done]. cbn [snd log trace].
    rewrite <- !app_assoc. reflexivity.
Qed.

(** Runs the scan handler as far as the lines and parses at hand go. *)
Ltac run_handle_scan :=
  unfold _handle_scan, try_except, print;
  repeat first
    [ rewrite bind_run
    | rewrite emit_run
    | rewrite ret_run
    | progress (unfold input at 1; cbn [stdin reads trace])
    | progress (unfold int_of_input at 1)
    | progress cbn [raise is_ValueError orb log stdin reads trace snd fst]
    | match goal with
      | H : strip ?l = _ |- context [strip ?l] => rewrite H
      | H : py_int ?s = _ |- context [py_int ?s] => rewrite H
      | H : (_ <? _) = _ |- _ => rewrite H
      end ].

(** X6. The scan handler resolves a host only after its three answers
    passed validation: whenever a run of the handler resolves a name,
    that name is the non-blank host typed first, and the two lines typed
    next are integers [start] and [end] with [0 <= start <= end].  A
    blank host, a missing or non-integer port, a negative start and an
    inverted range all end the handler before anything is resolved or
    probed. *)
Theorem _handle_scan_guard w st host :
  EvResolve host ∈ trace (_handle_scan w st).2 ->
  EvResolve host ∈ trace st
  \/ exists lh ls le rest s e,
       stdin st = lh :: ls :: le :: rest
       /\ host = strip lh /\ host <> []
       /\ py_int (strip ls) = Some s /\ py_int (strip le) = Some e
       /\ 0 <= s <= e.
Proof.
  destruct st as [inp n out]. cbn [stdin trace].
  assert (Hquiet : forall evs,
            Forall not_resolve evs ->
            EvResolve host ∈ out ++ evs -> EvResolve host ∈ out).
  { intros evs Hevs [Hin|Hin]%elem_of_app; [done|].
    rewrite Forall_forall in Hevs. by destruct (Hevs _ Hin). }
  destruct inp as [|lh inp].
  { intros Hin; left; revert Hin. run_handle_scan.
    apply Hquiet. by repeat constructor. }
  destruct (strip lh) as [|c0 host0] eqn:Hhost.
  { intros Hin; left; revert Hin. run_handle_scan.
    rewrite <- app_assoc. apply Hquiet. by repeat constructor. }
  destruct inp as [|ls inp].
  { intros Hin; left; revert Hin. run_handle_scan.
    rewrite <- app_assoc. apply Hquiet. by repeat constructor. }
  destruct (py_int (strip ls)) as [s|] eqn:Hs.
  2:{ intros Hin; left; revert Hin. run_handle_scan.
      rewrite <- !app_assoc. apply Hquiet. by repeat constructor. }
  destruct inp as [|le rest].
  { intros Hin; left; revert Hin. run_handle_scan.
    rewrite <- !app_assoc. apply Hquiet. by repeat constructor. }
  destruct (py_int (strip le)) as [e|] eqn:He.
  2:{ intros Hin; left; revert Hin. run_handle_scan.
      rewrite <- !app_assoc. apply Hquiet. by repeat constructor. }
  destruct (s <? 0) eqn:Hneg.
  { intros Hin; left; revert Hin. run_handle_scan.
    rewrite <- !app_assoc. apply Hquiet. by repeat constructor. }
  destruct (e <? s) eqn:Hinv.
  { intros Hin; left; revert Hin. run_handle_scan.
    rewrite <- !app_assoc. apply Hquiet. by repeat constructor. }
  apply Z.ltb_ge in Hneg, Hinv.
  intros Hin.
  destruct (_handle_scan_valid_trace w lh ls le rest n out s e)
    as (evs & Htr & Hevs); [by rewrite Hhost|done|done|lia|].
  rewrite Htr in Hin.
  apply elem_of_app in Hin as [Hin|Hin]; [by left|].
  apply elem_of_app in Hin as [Hin|Hin].
  { exfalso. revert Hin. rewrite !elem_of_cons, elem_of_nil.
    by intros [H|[H|[H|H]]]. }
  apply elem_of_cons in Hin as [Hin|Hin].
  - injection Hin as ->. right. exists lh, ls, le, rest, s, e.
    rewrite Hhost. repeat split; auto; lia.
  - exfalso. rewrite Forall_forall in Hevs. by destruct (Hevs _ Hin).
Qed.

Lemma _handle_scan_guard_witness :
  EvResolve (lit "lab") ∈ trace (initial [lit "lab"; lit "1"; lit "10"])
  \/ exists lh ls le rest s e,
       stdin (initial [lit "lab"; lit "1"; lit "10"]) = lh :: ls :: le :: rest
       /\ lit "lab" = strip lh /\ lit "lab" <> []
       /\ py_int (strip ls) = Some s /\ py_int (strip le) = Some e
       /\ 0 <= s <= e.
Proof.
  apply (_handle_scan_guard lab_world).
  vm_compute. repeat constructor.
Defined.
